(** * A TF-IDF search engine over short posts: normaliser, index builder, query engine

    Shallow embedding of
      - [Data_Cleaner.py]   ([DataCleaner.clean_text]),
      - [Inverted_Index.py] ([InvertedIndexBuilder.build_inverted_index]),
      - [Ranked_search.py]  ([SearchEngine]),
    followed by the properties of the written specification that concern them.

    Conventions of the embedding
      - a Python [str] is the list of its Unicode code points ([pystr]);
      - a [dict] that is only looked up is a [gmap]; a [dict] whose iteration
        order is observed ([Counter], the [scores] of a query) is an
        association list in insertion order;
      - counts ([df], [tf_total], term frequencies) are natural numbers;
      - [print] is a log of structured events, one constructor per message;
      - the files under [data_store/] are the record [FS];
      - NLTK (stop words, Porter stemmer), the Unicode tables of the
        interpreter outside ASCII, and binary floating point are interfaces
        ([Nltk], [Unicode], [PyFloat]): every theorem holds for all of their
        implementations. *)

From Stdlib Require Import ZArith NArith List Bool Lia String Ascii.
From Stdlib Require Import DecimalString Sorting.Sorted.
From Stdlib Require Import Reals Lra.
From stdpp Require Import base option list gmap.

Local Open Scope N_scope.

(** ** Python strings *)

Module PyStr.

Abbreviation pystr := (list N).

(** A literal, character by character. *)
Definition str (s : string) : pystr :=
  List.map N_of_ascii (list_ascii_of_string s).

(** The tables of the interpreter for code points above 127 ([str.lower],
    [str.isspace], [str.isalpha], and the classes that [re] uses for [\d] and
    [\w]).  [uni_lower] sees the reversed text before the character and the
    text after it, since lowering may depend on the context (final sigma) and
    may yield several code points. *)
Class Unicode := {
  uni_lower : pystr -> N -> pystr -> pystr;
  uni_isspace : N -> bool;
  uni_isdecimal : N -> bool;
  uni_isalnum : N -> bool;
  uni_isalpha : N -> bool
}.

Definition is_ascii (c : N) : bool := c <? 128.

Definition between (lo hi c : N) : bool := (lo <=? c) && (c <=? hi).

Definition ascii_upper (c : N) : bool := between 65 90 c.
Definition ascii_letter (c : N) : bool := between 65 90 c || between 97 122 c.
Definition ascii_digit (c : N) : bool := between 48 57 c.
(** TAB, LF, VT, FF, CR, the separators FS GS RS US, and the space. *)
Definition ascii_space (c : N) : bool :=
  between 9 13 c || between 28 31 c || (c =? 32).

Section Classes.
Context `{U : Unicode}.

(** [\s] *)
Definition isspace (c : N) : bool :=
  if is_ascii c then ascii_space c else uni_isspace c.
(** [\d] *)
Definition isdecimal (c : N) : bool :=
  if is_ascii c then ascii_digit c else uni_isdecimal c.
(** [\w] *)
Definition isword (c : N) : bool :=
  if is_ascii c then ascii_letter c || ascii_digit c || (c =? 95)
  else uni_isalnum c.
Definition isalpha_char (c : N) : bool :=
  if is_ascii c then ascii_letter c else uni_isalpha c.
(** [[^\x00-\x7F]] *)
Definition non_ascii (c : N) : bool := negb (is_ascii c).

(** [str.isalpha]: at least one character, all of them alphabetic. *)
Definition isalpha (s : pystr) : bool :=
  match s with
  | [] => false
  | _ => forallb isalpha_char s
  end.

(** [str.lower] *)
Fixpoint lower_from (before s : pystr) : pystr :=
  match s with
  | [] => []
  | c :: rest =>
      (if is_ascii c then [if ascii_upper c then c + 32 else c]
       else uni_lower before c rest)
      ++ lower_from (c :: before) rest
  end.
Definition lower (s : pystr) : pystr := lower_from [] s.
End Classes.

(** [string.punctuation] *)
Definition punctuation : pystr :=
  str "!" ++ [34] ++ str "#$%&'()*+,-./:;<=>?@[\]^_`{|}~".

(** [text.translate(str.maketrans('', '', string.punctuation))] *)
Definition remove_punctuation (s : pystr) : pystr :=
  List.filter (fun c => negb (bool_decide (c ∈ punctuation))) s.

(** [sep.join(parts)] *)
Fixpoint join (sep : pystr) (parts : list pystr) : pystr :=
  match parts with
  | [] => []
  | [p] => p
  | p :: rest => p ++ sep ++ join sep rest
  end.

(** *** The regular expressions of the cleaner

    A matcher gives the length of the match of its pattern at the start of
    the text, if there is one.  None of the patterns below matches the empty
    string. *)

Definition matcher := pystr -> option nat.

(** Length of the longest prefix made of characters of class [p]. *)
Fixpoint run (p : N -> bool) (s : pystr) : nat :=
  match s with
  | c :: rest => if p c then S (run p rest) else O
  | [] => O
  end.

(** [p+] (greedy; nothing follows it in the patterns below). *)
Definition plus (p : N -> bool) : matcher := fun s =>
  match run p s with
  | O => None
  | n => Some n
  end.

(** A literal followed by the rest of the pattern. *)
Fixpoint lit (l : pystr) (k : matcher) : matcher := fun s =>
  match l with
  | [] => k s
  | c :: l' =>
      match s with
      | d :: s' => if c =? d then S <$> lit l' k s' else None
      | [] => None
      end
  end.

(** [l?] followed by the rest: first with the literal, then without. *)
Definition opt (l : pystr) (k : matcher) : matcher := fun s =>
  match lit l k s with
  | Some n => Some n
  | None => k s
  end.

(** [a|b] *)
Definition alt (a b : matcher) : matcher := fun s =>
  match a s with
  | Some n => Some n
  | None => b s
  end.

(** One character of a class followed by the rest. *)
Definition one (p : N -> bool) (k : matcher) : matcher := fun s =>
  match s with
  | c :: s' => if p c then S <$> k s' else None
  | [] => None
  end.

(** [re.sub(pattern, '', text)]: the leftmost matches, none overlapping, are
    deleted.  [skip] counts the characters of the current match that are
    still to be dropped. *)
Fixpoint sub_from (m : matcher) (skip : nat) (s : pystr) : pystr :=
  match s with
  | [] => []
  | c :: rest =>
      match skip with
      | S k => sub_from m k rest
      | O =>
          match m s with
          | Some (S k) => sub_from m k rest
          | _ => c :: sub_from m O rest
          end
      end
  end.
Definition re_sub (m : matcher) (s : pystr) : pystr := sub_from m O s.

Section Patterns.
Context `{U : Unicode}.

Definition nonspace (c : N) : bool := negb (isspace c).

(** [https?://\S+|www\.\S+] *)
Definition url_re : matcher :=
  alt (lit (str "http") (opt (str "s") (lit (str "://") (plus nonspace))))
      (lit (str "www.") (plus nonspace)).

(** [[@#]\w+] *)
Definition mention_re : matcher :=
  one (fun c => (c =? 64) || (c =? 35)) (plus isword).

(** [\d+] *)
Definition digits_re : matcher := plus isdecimal.

(** [[^\x00-\x7F]+] *)
Definition non_ascii_re : matcher := plus non_ascii.

(** [WhitespaceTokenizer().tokenize]: the pieces between runs of [\s],
    the empty ones dropped.  [cur] is the current piece, reversed. *)
Definition emit (cur : pystr) : list pystr :=
  match cur with
  | [] => []
  | _ => [rev cur]
  end.
Fixpoint split_from (cur s : pystr) : list pystr :=
  match s with
  | [] => emit cur
  | c :: rest =>
      if isspace c then emit cur ++ split_from [] rest
      else split_from (c :: cur) rest
  end.
Definition whitespace_tokenize (s : pystr) : list pystr := split_from [] s.
End Patterns.

End PyStr.
Export PyStr.


(** ** Python dictionaries whose order is observed *)

Module PyDict.
Section Dict.
Context {V : Type}.

(** [d.get(k, default)] *)
Fixpoint dict_get (k : pystr) (default : V) (d : list (pystr * V)) : V :=
  match d with
  | [] => default
  | (k', v) :: rest => if decide (k' = k) then v else dict_get k default rest
  end.

(** [d[k] = v]: an existing key keeps its place, a new one goes last. *)
Fixpoint dict_set (k : pystr) (v : V) (d : list (pystr * V)) : list (pystr * V) :=
  match d with
  | [] => [(k, v)]
  | (k', v') :: rest =>
      if decide (k' = k) then (k, v) :: rest else (k', v') :: dict_set k v rest
  end.
End Dict.

(** [Counter(tokens)] *)
Definition Counter (tokens : list pystr) : list (pystr * nat) :=
  fold_left (fun c t => dict_set t (dict_get t O c + 1)%nat c) tokens [].

(** [sum(freq.values())] *)
Definition sum_values (freq : list (pystr * nat)) : nat :=
  fold_left Nat.add (List.map snd freq) O.

(** [max(freq, key=freq.get)] continued from a first candidate: the first key
    of greatest count wins. *)
Fixpoint max_from (best : pystr * nat) (rest : list (pystr * nat)) : pystr * nat :=
  match rest with
  | [] => best
  | x :: rest' =>
      if (snd best <? snd x)%nat then max_from x rest' else max_from best rest'
  end.
End PyDict.
Export PyDict.

(** ** The interfaces to NLTK and to floating point *)

(** [set(stopwords.words('english'))] and [PorterStemmer().stem]. *)
Class Nltk := {
  stop_words : gset pystr;
  stem : pystr -> pystr
}.

(** The float operations that the ranking uses.  [of_int] is the conversion of
    an int operand of a mixed operation, [truediv] is [/] on two ints, [flog]
    is [math.log] and [flt] is [<]. *)
Class PyFloat := {
  float : Type;
  of_int : nat -> float;
  truediv : nat -> nat -> float;
  fadd : float -> float -> float;
  fmul : float -> float -> float;
  flog : float -> float;
  flt : float -> float -> bool
}.

(** What the theorems on ranking assume of the floats: [<] is a strict total
    order, and adding the int [0] changes nothing.  Binary floating point has
    these laws once its two zeros are taken for one number and NaN is left
    out; the scores, products of a count and of the logarithm of a number not
    below 1, are neither. *)
Class FloatLaws (F : PyFloat) : Prop := {
  flt_irrefl : forall x, flt x x = false;
  flt_trans : forall x y z, flt x y = true -> flt y z = true -> flt x z = true;
  flt_total : forall x y, flt x y = false -> flt y x = false -> x = y;
  fadd_0_l : forall x, fadd (of_int 0) x = x
}.

(** ** Data_Cleaner.py *)

Module DataCleaner.
Section Cleaner.
Context `{U : Unicode} `{L : Nltk}.

(** The comprehension's condition:
    [word not in self.stop_words and word.isalpha() and len(word) > 2]. *)
Definition keep_word (word : pystr) : bool :=
  negb (bool_decide (word ∈ stop_words)) && isalpha word
  && (2 <? List.length word)%nat.

(** [DataCleaner.clean_text]; [None] is Python's [None]. *)
Definition clean_text (text : option pystr) : pystr :=
  match text with
  | None | Some [] => []
  | Some text =>
      let text := lower text in
      let text := re_sub url_re text in
      let text := re_sub mention_re text in
      let text := re_sub digits_re text in
      let text := re_sub non_ascii_re text in
      let text := remove_punctuation text in
      let tokens := whitespace_tokenize text in
      let cleaned_tokens := List.map stem (List.filter keep_word tokens) in
      join (str " ") cleaned_tokens
  end.
End Cleaner.
End DataCleaner.

(** ** The rows of the [posts] table and the artifacts under [data_store/] *)

(** [datetime.date] *)
Record Date := { year : nat; month : nat; day : nat }.

(** A row of [fetch_all_posts_for_indexing], with an integer key [post_id];
    [None] is SQL's [NULL]. *)
Record Post := {
  post_id : Z;
  clean_text : option pystr;
  likes : option Z;
  comment_count : option Z;
  post_date_only : option Date
}.

(** An entry of [inverted_index.json]. *)
Record IndexEntry := { df : nat; tf_total : nat; post_ids : list pystr }.

(** An entry of [post_metadata.json] (keys [max_tf_term], [max_tf], [length],
    [likes], [comments], [date]). *)
Record PostMeta := {
  max_tf_term : pystr;
  max_tf : nat;
  meta_length : nat;
  meta_likes : option Z;
  comments : option Z;
  date : option pystr
}.

(** The files: [data_store/inverted_index.json], [data_store/post_metadata.json]
    (absent when [None]) and the directory [data_store/json_posts], where
    [post_<id>.json] is stored under [<id>]. *)
Record FS := {
  inverted_index_json : option (gmap pystr IndexEntry);
  post_metadata_json : option (gmap pystr PostMeta);
  json_posts : gmap pystr (list (pystr * nat))
}.

(** [str(n)] for an int. *)
Definition str_int (n : Z) : pystr := str (NilZero.string_of_int (Z.to_int n)).

(** [n] in decimal, padded with zeros to [width] digits. *)
Definition zero_padded (width n : nat) : pystr :=
  let digits := str (NilZero.string_of_uint (Nat.to_uint n)) in
  repeat 48 (width - List.length digits)%nat ++ digits.

(** [str(d)] for a date: [YYYY-MM-DD]. *)
Definition str_date (d : Date) : pystr :=
  zero_padded 4 (year d) ++ str "-" ++ zero_padded 2 (month d)
  ++ str "-" ++ zero_padded 2 (day d).

(** ** Inverted_Index.py *)

Module InvertedIndexBuilder.
Section Builder.
Context `{U : Unicode}.

(** [tokenize_text] *)
Definition tokenize_text (text : option pystr) : list pystr :=
  match text with
  | None | Some [] => []
  | Some text => whitespace_tokenize text
  end.

(** [defaultdict(lambda: {'df': 0, 'tf_total': 0, 'post_ids': []})] *)
Definition default_entry : IndexEntry :=
  {| df := 0; tf_total := 0; post_ids := [] |}.

(** One round of [for term, tf in freq.items()]. *)
Definition add_posting (pid : pystr) (inverted_index : gmap pystr IndexEntry)
    (item : pystr * nat) : gmap pystr IndexEntry :=
  let '(term, tf) := item in
  let e := default default_entry (inverted_index !! term) in
  let e := {| df := df e; tf_total := (tf_total e + tf)%nat;
              post_ids := post_ids e |} in
  let e := if bool_decide (pid ∈ post_ids e) then e
           else {| df := (df e + 1)%nat; tf_total := tf_total e;
                   post_ids := post_ids e ++ [pid] |} in
  <[term := e]> inverted_index.

(** The variables of the loop over the posts: [inverted_index],
    [post_metadata], and the files written so far. *)
Record BuildState := {
  bs_index : gmap pystr IndexEntry;
  bs_metadata : gmap pystr PostMeta;
  bs_files : gmap pystr (list (pystr * nat))
}.

(** One round of [for idx, post in enumerate(posts)]. *)
Definition index_post (st : BuildState) (post : Post) : BuildState :=
  let pid := str_int (post_id post) in
  let tokens := tokenize_text (clean_text post) in
  match tokens with
  | [] => st
  | _ =>
      let freq := Counter tokens in
      match freq with
      | [] => st  (* [max] of an empty [Counter]: not reached, [tokens] is not empty *)
      | first :: others =>
          let length := sum_values freq in
          let best := max_from first others in
          let meta := {| max_tf_term := fst best; max_tf := snd best;
                         meta_length := length; meta_likes := likes post;
                         comments := comment_count post;
                         date := str_date <$> post_date_only post |} in
          {| bs_index := fold_left (add_posting pid) freq (bs_index st);
             bs_metadata := <[pid := meta]> (bs_metadata st);
             bs_files := <[pid := freq]> (bs_files st) |}
      end
  end.

(** The state after the loop. *)
Definition index_posts (fs : FS) (posts : list Post) : BuildState :=
  fold_left index_post posts
    {| bs_index := ∅; bs_metadata := ∅; bs_files := json_posts fs |}.

(** [build_inverted_index], on the rows that the database returned: the files
    that it leaves.  Its progress messages are not part of the model. *)
Definition build_inverted_index (fs : FS) (posts : list Post) : FS :=
  match posts with
  | [] => fs
  | _ =>
      let st := index_posts fs posts in
      {| inverted_index_json := Some (bs_index st);
         post_metadata_json := Some (bs_metadata st);
         json_posts := bs_files st |}
  end.
End Builder.
End InvertedIndexBuilder.

(** ** Ranked_search.py *)

Module SearchEngine.

(** The exceptions that the operations used by [search] can raise. *)
Inductive exn := IndexError | KeyError | ZeroDivisionError.

(** A value shown by [show_post_info]. *)
Inductive value := VNone | VInt (n : Z) | VStr (s : pystr).

Section Engine.
Context `{U : Unicode} `{L : Nltk} `{F : PyFloat}.

(** The messages printed, in the order of their [print] statements in the
    source. *)
Inductive event :=
| FileNotFound (path : pystr)
| NoValidTerm
| SearchingFor (term : pystr)
| TermNotFound (term : pystr)
| DebugScore (PID : pystr) (tf : nat) (idf tfidf : float)
| JsonMissing (PID : pystr)
| TopMatchingPosts
| PostScore (PID : pystr) (score : float)
| PostHeader (pid : pystr)
| PostField (key : pystr) (v : value)
| PostNotFound (pid : pystr).

(** A computation prints, then returns or raises. *)
Definition M (A : Type) : Type := list event * (exn + A).

Definition ret {A} (a : A) : M A := ([], inr a).
Definition raise {A} (e : exn) : M A := ([], inl e).
Definition print (e : event) : M unit := ([e], inr tt).
Definition bind {A B} (c : M A) (k : A -> M B) : M B :=
  match c with
  | (out, inl e) => (out, inl e)
  | (out, inr a) => let '(out', r) := k a in (out ++ out', r)
  end.

Notation "x <- c ;; k" := (bind c (fun x => k))
  (at level 100, c at next level, right associativity).
Notation "c ;; k" := (bind c (fun _ => k))
  (at level 100, right associativity).

Definition printed {A} (c : M A) : list event := fst c.
Definition outcome {A} (c : M A) : exn + A := snd c.

(** [xs[0]] *)
Definition item0 {A} (xs : list A) : M A :=
  match xs with
  | x :: _ => ret x
  | [] => raise IndexError
  end.

(** [d[k]] *)
Definition getitem {A} (d : gmap pystr A) (k : pystr) : M A :=
  match d !! k with
  | Some v => ret v
  | None => raise KeyError
  end.

(** [a / b] on ints *)
Definition div_int (a b : nat) : M float :=
  if (b =? 0)%nat then raise ZeroDivisionError else ret (truediv a b).

(** The attributes of the engine that hold data. *)
Record SearchEngine := {
  inverted_index : gmap pystr IndexEntry;
  post_metadata : gmap pystr PostMeta;
  debug : bool
}.

Definition index_path : pystr := str "data_store/inverted_index.json".
Definition metadata_path : pystr := str "data_store/post_metadata.json".

(** [_load_json], on the file found at [path], if any. *)
Definition _load_json {A} (path : pystr) (file : option (gmap pystr A))
    : M (gmap pystr A) :=
  match file with
  | None => print (FileNotFound path) ;; ret ∅
  | Some data => ret data
  end.

(** [SearchEngine()] with the default paths. *)
Definition __init__ (fs : FS) : M SearchEngine :=
  inverted_index <- _load_json index_path (inverted_index_json fs) ;;
  post_metadata <- _load_json metadata_path (post_metadata_json fs) ;;
  ret {| inverted_index := inverted_index; post_metadata := post_metadata;
         debug := false |}.

(** [preprocess_query] *)
Definition preprocess_query (Query : pystr) : list pystr :=
  let Query := lower Query in
  let Query := re_sub mention_re Query in
  let Query := remove_punctuation Query in
  let tokens := whitespace_tokenize Query in
  List.map stem
    (List.filter
       (fun word => isalpha word && negb (bool_decide (word ∈ stop_words)))
       tokens).

(** The loop [for PID in post_list] of [search]. *)
Fixpoint score_posts (fs : FS) (dbg : bool) (term : pystr) (idf : float)
    (post_list : list pystr) (scores : list (pystr * float))
    : M (list (pystr * float)) :=
  match post_list with
  | [] => ret scores
  | PID :: rest =>
      scores <-
        match json_posts fs !! PID with
        | Some freqs =>
            let tf := dict_get term O freqs in
            let tfidf := fmul (of_int tf) idf in
            (if dbg then print (DebugScore PID tf idf tfidf) else ret tt) ;;
            ret (dict_set PID (fadd (dict_get PID (of_int 0) scores) tfidf)
                   scores)
        | None => print (JsonMissing PID) ;; ret scores
        end ;;
      score_posts fs dbg term idf rest scores
  end.

(** [sorted(items, key=lambda x: x[1], reverse=True)]: the stable sort, greatest
    score first.  An item goes in front of the first one whose score is not
    greater than its own. *)
Fixpoint insert_desc (x : pystr * float) (l : list (pystr * float))
    : list (pystr * float) :=
  match l with
  | [] => [x]
  | y :: l' => if flt (snd x) (snd y) then y :: insert_desc x l' else x :: l
  end.
Definition sorted_desc (items : list (pystr * float)) : list (pystr * float) :=
  foldr insert_desc [] items.

(** [for PID, score in ranked[:20]: print(...)] *)
Fixpoint print_scores (top : list (pystr * float)) : M unit :=
  match top with
  | [] => ret tt
  | (PID, score) :: rest => print (PostScore PID score) ;; print_scores rest
  end.

(** [idf = math.log(1 + total_docs / df) if df else 0] *)
Definition idf_of (total_docs df : nat) : M float :=
  if (df =? 0)%nat then ret (of_int 0)
  else q <- div_int total_docs df ;; ret (flog (fadd (of_int 1) q)).

(** [search] from [post_list = ...] to the end of the loop: the dictionary
    [scores] as it is when [search] reaches the sort. *)
Definition scores_of (fs : FS) (self : SearchEngine) (term : pystr)
    : M (list (pystr * float)) :=
  entry <- getitem (inverted_index self) term ;;
  let post_list := post_ids entry in
  let df := df entry in
  let total_docs := size (post_metadata self) in
  idf <- idf_of total_docs df ;;
  score_posts fs (debug self) term idf post_list [].

(** [search] *)
Definition search (fs : FS) (self : SearchEngine) (Query : pystr)
    : M (list pystr) :=
  let terms := preprocess_query Query in
  match terms with
  | [] => print NoValidTerm ;; ret []
  | _ =>
      term <- item0 terms ;;
      print (SearchingFor term) ;;
      match inverted_index self !! term with
      | None => print (TermNotFound term) ;; ret []
      | Some _ =>
          scores <- scores_of fs self term ;;
          let ranked := sorted_desc scores in
          print TopMatchingPosts ;;
          print_scores (take 20 ranked) ;;
          ret (List.map fst (take 20 ranked))
      end
  end.

Definition show_value (v : option Z) : value :=
  match v with
  | Some n => VInt n
  | None => VNone
  end.

(** [show_post_info] *)
Definition show_post_info (self : SearchEngine) (pid : pystr) : M unit :=
  match post_metadata self !! pid with
  | Some data =>
      print (PostHeader pid) ;;
      print (PostField (str "max_tf_term") (VStr (max_tf_term data))) ;;
      print (PostField (str "max_tf") (VInt (Z.of_nat (max_tf data)))) ;;
      print (PostField (str "length") (VInt (Z.of_nat (meta_length data)))) ;;
      print (PostField (str "likes") (show_value (meta_likes data))) ;;
      print (PostField (str "comments") (show_value (comments data))) ;;
      print (PostField (str "date")
               (match date data with Some d => VStr d | None => VNone end))
  | None => print (PostNotFound pid)
  end.
End Engine.
End SearchEngine.

(** ** Implementations of the interfaces, to run examples *)

Module Sample.

(** Text that is all ASCII never consults the tables; here they are empty. *)
Definition ascii_only : Unicode :=
  {| uni_lower := fun _ c _ => [c];
     uni_isspace := fun _ => false;
     uni_isdecimal := fun _ => false;
     uni_isalnum := fun _ => false;
     uni_isalpha := fun _ => false |}.

(** Drops a final [s] of a word of more than three letters. *)
Definition plural_stem (w : pystr) : pystr :=
  match rev w with
  | 115 :: r => if (3 <? List.length w)%nat then rev r else w
  | _ => w
  end.

(** A few of the English stop words, and [plural_stem] in place of Porter's
    algorithm. *)
Definition small_nltk : Nltk :=
  {| stop_words := list_to_set (List.map str ["the"; "and"; "was"; "are"; "is"; "a"; "of"; "to"]%string);
     stem := plural_stem |}.

(** Integers in place of floats: quotients are truncated and the logarithm is
    the binary one, rounded down. *)
Definition int_float : PyFloat :=
  {| float := Z;
     of_int := Z.of_nat;
     truediv := fun a b => Z.of_nat (a / b);
     fadd := Z.add;
     fmul := Z.mul;
     flog := Z.log2;
     flt := Z.ltb |}.

Definition no_files : FS :=
  {| inverted_index_json := None; post_metadata_json := None; json_posts := ∅ |}.

Definition post (id : Z) (text : string) : Post :=
  {| post_id := id; clean_text := Some (str text); likes := Some 0%Z;
     comment_count := None; post_date_only := None |}.

(** The engine over the files [fs], as [SearchEngine()] leaves it. *)
Definition engine_over (fs : FS) : SearchEngine.SearchEngine :=
  {| SearchEngine.inverted_index := default ∅ (inverted_index_json fs);
     SearchEngine.post_metadata := default ∅ (post_metadata_json fs);
     SearchEngine.debug := false |}.

(** Three posts, as they are stored after cleaning. *)
Definition corpus : list Post :=
  [post 1 "cat love cat"; post 2 "dog love cat"; post 3 "bird fly"].
Definition store : FS :=
  InvertedIndexBuilder.build_inverted_index (U := ascii_only) no_files corpus.

(** Two posts with the same text, the one with the greater id first. *)
Definition tied_corpus : list Post := [post 2 "cat"; post 1 "cat"].
Definition tied_store : FS :=
  InvertedIndexBuilder.build_inverted_index (U := ascii_only) no_files tied_corpus.


(** Both global artifacts present and empty. *)
Definition empty_tables : FS :=
  {| inverted_index_json := Some ∅; post_metadata_json := Some ∅; json_posts := ∅ |}.
End Sample.

(** Real numbers in place of floats: the arithmetic that the floats
    approximate, with the natural logarithm. *)
Module Ideal.
Definition real_float : PyFloat :=
  {| float := R;
     of_int := INR;
     truediv := fun a b => (INR a / INR b)%R;
     fadd := Rplus;
     fmul := Rmult;
     flog := ln;
     flt := fun x y => if Rlt_dec x y then true else false |}.
End Ideal.

(** ** What the claims of the specification say, as predicates on the model *)

Module Claims.
Import SearchEngine InvertedIndexBuilder.
Section Claims.
Context `{U : Unicode} `{L : Nltk} `{F : PyFloat}.

(** The items that a Python list returned by a ranked search may hold: the
    [str] of a document id, or a tuple of a document id and a float. *)
Inductive item :=
| IdOnly (pid : pystr)
| Scored (pid : pystr) (score : float).

(** The list that [search] returns: [[PID for PID, _ in ranked[:20]]]. *)
Definition search_value (fs : FS) (self : SearchEngine) (Query : pystr)
    : option (list item) :=
  match outcome (search fs self Query) with
  | inr ids => Some (List.map IdOnly ids)
  | inl _ => None
  end.

(** A list of (document id, score) pairs. *)
Definition scored_pairs (items : list item) : Prop :=
  exists pairs : list (pystr * float),
    items = List.map (fun p => Scored (fst p) (snd p)) pairs.

(** The ranking has no item with a smaller score in front of one with a
    greater score. *)
Definition descending (ranked : list (pystr * float)) : Prop :=
  forall i j a b, (i < j)%nat -> ranked !! i = Some a -> ranked !! j = Some b ->
    flt (snd a) (snd b) = false.

(** Two scores compare equal. *)
Definition tied (s x : float) : bool := negb (flt s x) && negb (flt x s).

(** The items of a ranking that have score [s], in the order of the ranking. *)
Definition with_score (s : float) (ranked : list (pystr * float))
    : list (pystr * float) :=
  List.filter (fun p => tied s (snd p)) ranked.

(** Among items of equal score, the one with the smaller document id comes
    first. *)
Definition ties_by_ascending_id (ranked : list (pystr * float)) : Prop :=
  forall i j a b sa sb, (i < j)%nat ->
    ranked !! i = Some (str_int a, sa) -> ranked !! j = Some (str_int b, sb) ->
    tied sa sb = true -> (a < b)%Z.

(** An entry of the postings table counts each of its documents once, has at
    least one, and all of them satisfy [P]. *)
Definition entry_ok (P : pystr -> Prop) (e : IndexEntry) : Prop :=
  df e = List.length (post_ids e) /\ NoDup (post_ids e) /\ (0 < df e)%nat
  /\ Forall P (post_ids e).

Definition index_ok (P : pystr -> Prop) (idx : gmap pystr IndexEntry) : Prop :=
  forall term e, idx !! term = Some e -> entry_ok P e.

(** The document id under which a row is indexed, and whether it is indexed
    at all. *)
Definition pid_of (post : Post) : pystr := str_int (post_id post).
Definition has_tokens (post : Post) : Prop :=
  tokenize_text (clean_text post) <> [].

(** The sum, over the postings of an entry, of the frequencies of [term] that
    the files of these documents record; and the round trip: it gives back
    [tf_total], for every term. *)
Definition postings_tf (files : gmap pystr (list (pystr * nat))) (term : pystr)
    (e : IndexEntry) : nat :=
  sum_list_with (fun pid => dict_get term O (default [] (files !! pid)))
    (post_ids e).
Definition round_trip (files : gmap pystr (list (pystr * nat)))
    (idx : gmap pystr IndexEntry) : Prop :=
  forall term e, idx !! term = Some e -> tf_total e = postings_tf files term e.

(** The (document id, score) lines among the messages printed. *)
Definition printed_ranking (out : list event) : list (pystr * float) :=
  omap (fun ev => match ev with
                  | PostScore PID score => Some (PID, score)
                  | _ => None
                  end) out.

(** The constructor of the engine raises. *)
Definition load_fails (fs : FS) : Prop :=
  exists e, outcome (__init__ fs) = inl e.

(** The frequency of [term] recorded in the file of document [pid]:
    [freqs.get(term, 0)]. *)
Definition file_tf (fs : FS) (pid term : pystr) : nat :=
  dict_get term O (default [] (json_posts fs !! pid)).

(** [tf * idf] with [idf = math.log(1 + N / df)]. *)
Definition tf_idf (tf N df : nat) : float :=
  fmul (of_int tf) (flog (fadd (of_int 1) (truediv N df))).
End Claims.
End Claims.

(** ** Data_Cleaner.py, continued: [extract_urls] *)

Module Urls.

(** [re.findall(pattern, text)] for a pattern without groups: the leftmost
    matches, none overlapping, in order.  [skip] counts the characters of the
    current match that are still to be passed. *)
Fixpoint findall_from (m : matcher) (skip : nat) (s : pystr) : list pystr :=
  match s with
  | [] => []
  | c :: rest =>
      match skip with
      | S k => findall_from m k rest
      | O =>
          match m s with
          | Some (S k) => take (S k) s :: findall_from m k rest
          | _ => findall_from m O rest
          end
      end
  end.
Definition re_findall (m : matcher) (s : pystr) : list pystr := findall_from m O s.

Section Extract.
Context `{U : Unicode}.

(** [http\S+|www\S+] *)
Definition link_re : matcher :=
  alt (lit (str "http") (plus nonspace)) (lit (str "www") (plus nonspace)).

(** [DataCleaner.extract_urls] *)
Definition extract_urls (text : pystr) : list pystr := re_findall link_re text.
End Extract.
End Urls.

(** ** gui.py: the check of the entry in [search_word] *)

Module Gui.
Section Entry.
Context `{U : Unicode}.

(** [s.strip()] *)
Definition lstrip (s : pystr) : pystr := drop (run isspace s) s.
Definition strip (s : pystr) : pystr := rev (lstrip (rev (lstrip s))).

(** [re.match("^[a-zA-Z]+$", word)]: letters up to the end of the text, or up
    to a line feed that ends it. *)
Definition letters_re (word : pystr) : bool :=
  match run ascii_letter word with
  | O => false
  | n => bool_decide (drop n word = [] \/ drop n word = [10])
  end.

(** What [search_word] does with the text of the entry field: a warning for
    an empty entry, an error for an entry that is not a word of at most 30
    letters, and otherwise the search of the word. *)
Inductive entry_check :=
| EnterAWord
| OnlyAlphabetic
| Search (word : pystr).

Definition check_entry (entry : pystr) : entry_check :=
  let word := strip entry in
  match word with
  | [] => EnterAWord
  | _ =>
      if (30 <? List.length word)%nat || negb (letters_re word)
      then OnlyAlphabetic else Search word
  end.
End Entry.
End Gui.

(** ** Vocabulary for the properties of the builder and of the search *)

Module Terms.
Import SearchEngine InvertedIndexBuilder.

(** How many times [t] occurs among the tokens. *)
Definition occurrences (t : pystr) (tokens : list pystr) : nat :=
  List.length (List.filter (fun x => bool_decide (x = t)) tokens).

(** The entry of a term after one round of the loop over the terms of a
    document [pid] in which the term has frequency [tf]. *)
Definition posting_added (pid : pystr) (tf : nat) (e : IndexEntry) : IndexEntry :=
  if bool_decide (pid ∈ post_ids e)
  then {| df := df e; tf_total := tf_total e + tf; post_ids := post_ids e |}
  else {| df := df e + 1; tf_total := tf_total e + tf;
          post_ids := post_ids e ++ [pid] |}.

(** What [inverted_index[term]] is, the default entry included. *)
Definition entry_of (idx : gmap pystr IndexEntry) (term : pystr) : IndexEntry :=
  default default_entry (idx !! term).

(** The separators that [WhitespaceTokenizer] documents: space, tab and
    newline. *)
Definition plain_separator (c : N) : bool := (c =? 32) || (c =? 9) || (c =? 10).

Section Terms.
Context `{U : Unicode}.

(** The tokens of a row, and the rows in which a term occurs. *)
Definition tokens_of (post : Post) : list pystr :=
  tokenize_text (clean_text post).
Definition mentions (term : pystr) (post : Post) : bool :=
  bool_decide (term ∈ tokens_of post).

(** The rows that the loop of the builder does not skip. *)
Definition indexed (post : Post) : bool :=
  match tokens_of post with
  | [] => false
  | _ => true
  end.
End Terms.

Section Words.
Context `{U : Unicode} `{L : Nltk}.

(** The words that [clean_text] hands to the stemmer, and the list
    [cleaned_tokens] that it joins. *)
Definition kept_words (text : pystr) : list pystr :=
  List.filter DataCleaner.keep_word
    (whitespace_tokenize
       (remove_punctuation
          (re_sub non_ascii_re
             (re_sub digits_re
                (re_sub mention_re (re_sub url_re (lower text))))))).
Definition cleaned_tokens (text : pystr) : list pystr :=
  List.map stem (kept_words text).
End Words.

Section Events.
Context `{F : PyFloat}.

(** A line printed in debug mode. *)
Definition is_debug (ev : event) : bool :=
  match ev with
  | DebugScore _ _ _ _ => true
  | _ => false
  end.
End Events.
End Terms.

(** ** More data to run the properties on *)

Module Cases.
Import Sample.

(** The entry of [cat] over the three posts. *)
Definition cat_entry : IndexEntry :=
  {| df := 2; tf_total := 3; post_ids := [str "1"; str "2"] |}.

(** The store of the three posts after the file of document 1 was deleted. *)
Definition store_without_1 : FS :=
  {| inverted_index_json := inverted_index_json store;
     post_metadata_json := post_metadata_json store;
     json_posts := delete (str "1") (json_posts store) |}.

(** A directory that holds the file of a document 9 of an earlier build. *)
Definition old_files : FS :=
  {| inverted_index_json := None; post_metadata_json := None;
     json_posts := {[ str "9" := [(str "fish", 1%nat)] ]} |}.

(** A document whose text comes in two rows, and its entry of [cat]. *)
Definition repeated_corpus : list Post := [post 1 "cat"; post 1 "cat dog"].
Definition repeated_cat_entry : IndexEntry :=
  {| df := 1; tf_total := 2; post_ids := [str "1"] |}.

(** A post in which two terms have the greatest frequency. *)
Definition tie_post : Post := post 4 "love cat dog cat dog".

End Cases.

(** ** Properties of the building blocks *)

Import SearchEngine InvertedIndexBuilder Claims.

(** The patterns on sample texts, with the results that [re.sub] gives. *)
Section PatternExamples.
Context `{U : Unicode}.

Example url_re_example :
  re_sub url_re (str "a http://x b https:// c httpss://d www.e www. f https://g")
  = str "a  b https:// c httpss://d  www. f ".
Proof. by vm_compute. Qed.

Example mention_re_example :
  re_sub mention_re (str "a @b#c @ #_d @@e x@y.z") = str "a  @  @ x.z".
Proof. by vm_compute. Qed.

Example digits_re_example : re_sub digits_re (str "a1b 22 c") = str "ab  c".
Proof. by vm_compute. Qed.

Example non_ascii_re_example : re_sub non_ascii_re [99; 97; 102; 233; 128512; 33] = str "caf!".
Proof. by vm_compute. Qed.

Example whitespace_tokenize_example :
  whitespace_tokenize (str " ab  c ") = [str "ab"; str "c"].
Proof. by vm_compute. Qed.

Example punctuation_has_32_characters : List.length punctuation = 32%nat.
Proof. reflexivity. Qed.
End PatternExamples.

Section DictFacts.
Context {V : Type}.
Implicit Types (d : list (pystr * V)) (k : pystr).

Lemma dict_get_fresh k dflt d : k ∉ d.*1 -> dict_get k dflt d = dflt.
Proof.
  induction d as [|[k' v] d IH]; simpl; [done|].
  intros Hk. apply not_elem_of_cons in Hk as [Hne Hk].
  destruct (decide (k' = k)); [congruence | auto].
Qed.

Lemma dict_set_fresh k v d : k ∉ d.*1 -> dict_set k v d = d ++ [(k, v)].
Proof.
  induction d as [|[k' v'] d IH]; simpl; [done|].
  intros Hk. apply not_elem_of_cons in Hk as [Hne Hk].
  destruct (decide (k' = k)); [congruence | by rewrite IH].
Qed.

Lemma dict_set_nonempty k v d : dict_set k v d <> [].
Proof. destruct d as [|[k' v'] d]; simpl; [done|]. by destruct (decide _). Qed.

(** Setting a key keeps the keys, or adds the new one at the end. *)
Lemma dict_set_keys k v d :
  (dict_set k v d).*1 = if bool_decide (k ∈ d.*1) then d.*1 else d.*1 ++ [k].
Proof.
  induction d as [|[k' v'] d IH]; [done|].
  cbn [dict_set]. destruct (decide (k' = k)) as [->|Hne]; rewrite !fmap_cons; cbn [fst].
  - rewrite bool_decide_eq_true_2; [done | by left].
  - rewrite IH. destruct (bool_decide (k ∈ d.*1)) eqn:Hin.
    + apply bool_decide_eq_true in Hin.
      rewrite bool_decide_eq_true_2; [done | by right].
    + apply bool_decide_eq_false in Hin.
      rewrite bool_decide_eq_false_2; [done|].
      intros [?|?]%elem_of_cons; congruence.
Qed.

Lemma dict_set_NoDup k v d : NoDup d.*1 -> NoDup (dict_set k v d).*1.
Proof.
  intros Hnd. rewrite dict_set_keys.
  destruct (bool_decide (k ∈ d.*1)) eqn:Hin; [done|].
  apply bool_decide_eq_false in Hin.
  apply NoDup_app. split_and!; [done | | apply NoDup_singleton].
  intros x Hx ->%list_elem_of_singleton. done.
Qed.
End DictFacts.

Lemma Counter_NoDup (tokens : list pystr) : NoDup (Counter tokens).*1.
Proof.
  unfold Counter.
  assert (forall c : list (pystr * nat), NoDup c.*1 ->
    NoDup (fold_left (fun c t => dict_set t (dict_get t 0 c + 1)%nat c) tokens c).*1)
    as Hgen.
  { induction tokens as [|t tokens IH]; simpl; [done|].
    intros c Hc. apply IH. by apply dict_set_NoDup. }
  apply Hgen. constructor.
Qed.

Lemma Counter_nonempty (tokens : list pystr) : tokens <> [] -> Counter tokens <> [].
Proof.
  unfold Counter. intros Hne.
  destruct tokens as [|t ts] using rev_ind; [done|].
  rewrite fold_left_app. simpl. apply dict_set_nonempty.
Qed.

Section BuilderFacts.
Context `{U : Unicode}.
Implicit Types (idx : gmap pystr IndexEntry) (st : BuildState) (P : pystr -> Prop).

Lemma add_posting_lookup pid idx term tf t :
  add_posting pid idx (term, tf) !! t =
    if decide (term = t) then
      let e := default default_entry (idx !! term) in
      Some (if bool_decide (pid ∈ post_ids e)
            then {| df := df e; tf_total := tf_total e + tf; post_ids := post_ids e |}
            else {| df := df e + 1; tf_total := tf_total e + tf;
                    post_ids := post_ids e ++ [pid] |})
    else idx !! t.
Proof.
  unfold add_posting. rewrite lookup_insert. simpl.
  destruct (decide (term = t)); [|done].
  by destruct (bool_decide _).
Qed.

Lemma add_posting_ok P pid idx item :
  index_ok P idx -> P pid -> index_ok P (add_posting pid idx item).
Proof.
  intros Hidx Hpid t e. destruct item as [term tf].
  rewrite add_posting_lookup. destruct (decide (term = t)) as [->|]; [|apply Hidx].
  simpl. intros [= <-].
  destruct (idx !! t) as [e0|] eqn:Hlook; simpl.
  - destruct (Hidx _ _ Hlook) as (Hdf & Hnd & Hpos & Hall).
    destruct (bool_decide (pid ∈ post_ids e0)) eqn:Hin; unfold entry_ok; simpl.
    + done.
    + apply bool_decide_eq_false in Hin. rewrite length_app. simpl.
      split_and!; [lia | | lia | ].
      * apply NoDup_app. split_and!; [done | | apply NoDup_singleton].
        intros x Hx ->%list_elem_of_singleton. done.
      * apply Forall_app. split; [done|]. by apply Forall_singleton.
  - unfold entry_ok. simpl. split_and!; [done | apply NoDup_singleton | lia | ].
    by apply Forall_singleton.
Qed.

Lemma add_postings_ok P pid freq idx :
  index_ok P idx -> P pid -> index_ok P (fold_left (add_posting pid) freq idx).
Proof.
  revert idx. induction freq as [|item freq IH]; intros idx Hidx Hpid; simpl; [done|].
  apply IH; [|done]. by apply add_posting_ok.
Qed.

(** What one round of the loop over the posts does, by cases. *)
Lemma index_post_cases st post :
  (~ has_tokens post /\ index_post st post = st) \/
  (has_tokens post /\ exists freq meta,
     freq = Counter (tokenize_text (clean_text post)) /\
     index_post st post =
       {| bs_index := fold_left (add_posting (pid_of post)) freq (bs_index st);
          bs_metadata := <[pid_of post := meta]> (bs_metadata st);
          bs_files := <[pid_of post := freq]> (bs_files st) |}).
Proof.
  unfold index_post, has_tokens, pid_of.
  destruct (tokenize_text (clean_text post)) as [|t ts] eqn:Htok.
  - left. split; [intros H; by apply H | done].
  - right. split; [done|].
    pose proof (Counter_nonempty (t :: ts)) as Hne.
    destruct (Counter (t :: ts)) as [|first others] eqn:Hc; [by destruct Hne|].
    eauto.
Qed.

Lemma index_post_ok P st post :
  index_ok P (bs_index st) -> (has_tokens post -> P (pid_of post)) ->
  index_ok P (bs_index (index_post st post)).
Proof.
  intros Hidx HP.
  destruct (index_post_cases st post) as [[_ ->]|[Htok (freq & meta & _ & ->)]]; [done|].
  simpl. apply add_postings_ok; auto.
Qed.

Lemma index_posts_ok P posts st :
  index_ok P (bs_index st) ->
  (forall post, post ∈ posts -> has_tokens post -> P (pid_of post)) ->
  index_ok P (bs_index (fold_left index_post posts st)).
Proof.
  revert st. induction posts as [|post posts IH]; intros st Hidx HP; simpl; [done|].
  apply IH.
  - apply index_post_ok; [done|]. apply HP. by left.
  - intros p Hp. apply HP. by right.
Qed.

Lemma index_ok_empty P : index_ok P (∅ : gmap pystr IndexEntry).
Proof. intros t e. by rewrite lookup_empty. Qed.

(** Files once written stay, and every post with tokens gets one. *)
Lemma index_post_files_mono st post pid :
  is_Some (bs_files st !! pid) -> is_Some (bs_files (index_post st post) !! pid).
Proof.
  destruct (index_post_cases st post) as [[_ ->]|[Htok (freq & meta & _ & ->)]]; [done|].
  simpl. intros H. rewrite lookup_insert. by destruct (decide _).
Qed.

Lemma index_posts_files_mono posts st pid :
  is_Some (bs_files st !! pid) ->
  is_Some (bs_files (fold_left index_post posts st) !! pid).
Proof.
  revert st. induction posts as [|post posts IH]; intros st H; simpl; [done|].
  by apply IH, index_post_files_mono.
Qed.

Lemma index_posts_files posts st post :
  post ∈ posts -> has_tokens post ->
  is_Some (bs_files (fold_left index_post posts st) !! pid_of post).
Proof.
  revert st. induction posts as [|p posts IH]; intros st Hin Htok; [by inversion Hin|].
  simpl. apply elem_of_cons in Hin as [<-|Hin]; [|by apply IH].
  apply index_posts_files_mono.
  destruct (index_post_cases st post) as [[Hno _]|[_ (freq & meta & _ & ->)]]; [done|].
  simpl. rewrite lookup_insert_eq. eauto.
Qed.

End BuilderFacts.

(** *** The sum of the files over the postings, and indexing a post again *)

Section RoundTripFacts.
Context `{U : Unicode}.
Implicit Types (idx : gmap pystr IndexEntry) (st : BuildState)
  (freq : list (pystr * nat)) (files : gmap pystr (list (pystr * nat))).

Lemma index_ok_mono (P Q : pystr -> Prop) idx :
  (forall pid, P pid -> Q pid) -> index_ok P idx -> index_ok Q idx.
Proof.
  intros HPQ Hok term e He. destruct (Hok _ _ He) as (? & ? & ? & Hall).
  split_and!; [done..|]. eapply Forall_impl; [exact Hall | exact HPQ].
Qed.

(** The loop over the terms of a document that is in none of their postings
    yet: each of its terms gets the document, once, and its frequency. *)
Lemma add_postings_lookup_fresh pid freq idx t :
  NoDup freq.*1 ->
  (forall k, k ∈ freq.*1 -> pid ∉ post_ids (default default_entry (idx !! k))) ->
  fold_left (add_posting pid) freq idx !! t =
    if bool_decide (t ∈ freq.*1) then
      let e := default default_entry (idx !! t) in
      Some {| df := df e + 1; tf_total := tf_total e + dict_get t 0%nat freq;
              post_ids := post_ids e ++ [pid] |}
    else idx !! t.
Proof.
  revert idx. induction freq as [|[k tf] freq IH]; intros idx Hnd Hfresh; [done|].
  simpl in Hnd. apply NoDup_cons in Hnd as [Hk Hnd].
  cbn [fold_left]. rewrite IH; [|done|].
  - destruct (decide (k = t)) as [->|Hne].
    + rewrite bool_decide_eq_false_2 by done.
      rewrite (bool_decide_eq_true_2 (t ∈ ((t, tf) :: freq).*1)) by (by left).
      rewrite add_posting_lookup. rewrite decide_True by done. cbv zeta.
      rewrite bool_decide_eq_false_2; [|apply Hfresh; by left].
      simpl. by rewrite decide_True.
    + rewrite add_posting_lookup. rewrite decide_False by done.
      simpl. rewrite decide_False by done.
      destruct (bool_decide (t ∈ freq.*1)) eqn:Hin.
      * apply bool_decide_eq_true in Hin.
        rewrite bool_decide_eq_true_2; [done | by right].
      * apply bool_decide_eq_false in Hin.
        rewrite bool_decide_eq_false_2; [done|].
        intros [?|?]%elem_of_cons; [congruence | done].
  - intros k' Hk'. rewrite add_posting_lookup.
    rewrite decide_False by (intros ->; done).
    apply Hfresh. by right.
Qed.

(** The same loop for a document that is already in the postings of all its
    terms: only [tf_total] moves. *)
Lemma add_postings_lookup_again pid freq idx t :
  NoDup freq.*1 ->
  (forall k, k ∈ freq.*1 -> exists e, idx !! k = Some e /\ pid ∈ post_ids e) ->
  fold_left (add_posting pid) freq idx !! t =
    (fun e => {| df := df e; tf_total := tf_total e + dict_get t 0%nat freq;
                 post_ids := post_ids e |}) <$> idx !! t.
Proof.
  revert idx. induction freq as [|[k tf] freq IH]; intros idx Hnd Hin.
  - simpl. destruct (idx !! t) as [[d n l]|]; simpl; [|done].
    by rewrite Nat.add_0_r.
  - simpl in Hnd. apply NoDup_cons in Hnd as [Hk Hnd].
    cbn [fold_left]. rewrite IH; [|done|].
    + rewrite add_posting_lookup. simpl.
      destruct (decide (k = t)) as [->|Hne].
      * destruct (Hin t) as (e & He & Hpid); [by left|].
        rewrite He. simpl. rewrite bool_decide_eq_true_2 by done. simpl.
        rewrite (dict_get_fresh t 0%nat freq) by done.
        by rewrite Nat.add_0_r.
      * done.
    + intros k' Hk'. rewrite add_posting_lookup.
      destruct (decide (k = k')) as [->|Hne]; [done|].
      apply Hin. by right.
Qed.

(** After the loop, the document is in the postings of all its terms. *)
Lemma add_postings_covers pid freq idx k :
  ((exists e, idx !! k = Some e /\ pid ∈ post_ids e) \/ k ∈ freq.*1) ->
  exists e, fold_left (add_posting pid) freq idx !! k = Some e /\ pid ∈ post_ids e.
Proof.
  revert idx. induction freq as [|[k' tf] freq IH]; intros idx Hk.
  - destruct Hk as [Hk|Hk]; [done | by inversion Hk].
  - cbn [fold_left]. apply IH.
    destruct (decide (k' = k)) as [->|Hne].
    + left. rewrite add_posting_lookup, decide_True by done. cbv zeta.
      destruct (bool_decide (pid ∈ _)) eqn:Hin; eexists; (split; [reflexivity|]); simpl.
      * by apply bool_decide_eq_true in Hin.
      * apply elem_of_app. right. by left.
    + destruct Hk as [Hk|Hk].
      * left. by rewrite add_posting_lookup, decide_False.
      * right. simpl in Hk. apply elem_of_cons in Hk as [?|?]; [congruence | done].
Qed.

Lemma index_post_covers st post k :
  (exists e, bs_index st !! k = Some e /\ pid_of post ∈ post_ids e) ->
  forall p, exists e,
    bs_index (index_post st p) !! k = Some e /\ pid_of post ∈ post_ids e.
Proof.
  intros Hk p.
  destruct (index_post_cases st p) as [[_ ->]|[_ (freq & meta & _ & ->)]]; [done|].
  simpl. clear meta. revert Hk. generalize (bs_index st).
  induction freq as [|[k' tf] freq IH]; intros idx Hk; [done|].
  cbn [fold_left]. apply IH. rewrite add_posting_lookup.
  destruct (decide (k' = k)) as [->|Hne]; [|done].
  destruct Hk as (e & -> & Hpid). simpl.
  destruct (bool_decide (pid_of p ∈ post_ids e)); eexists; (split; [reflexivity|]); simpl;
    [done | apply elem_of_app; by left].
Qed.

Lemma index_posts_covers posts st post k :
  post ∈ posts -> k ∈ (Counter (tokenize_text (clean_text post))).*1 ->
  exists e, bs_index (fold_left index_post posts st) !! k = Some e
            /\ pid_of post ∈ post_ids e.
Proof.
  assert (forall posts st,
    (exists e, bs_index st !! k = Some e /\ pid_of post ∈ post_ids e) ->
    exists e, bs_index (fold_left index_post posts st) !! k = Some e
              /\ pid_of post ∈ post_ids e) as Hkeep.
  { clear. intros posts. induction posts as [|p posts IH]; intros st Hk; [done|].
    simpl. apply IH. by apply index_post_covers. }
  revert st. induction posts as [|p posts IH]; intros st Hin Hk; [by inversion Hin|].
  simpl. apply elem_of_cons in Hin as [<-|Hin]; [|by apply IH].
  apply Hkeep.
  destruct (index_post_cases st post) as [[Hno Heq]|[_ (freq & meta & -> & ->)]].
  - unfold has_tokens in Hno.
    destruct (tokenize_text (clean_text post)); [by inversion Hk | by destruct Hno].
  - simpl. apply add_postings_covers. by right.
Qed.

(** Indexing once more a post of the corpus adds its frequencies to
    [tf_total] and changes nothing else in the postings table. *)
Lemma index_again_adds_tf_total_only (fs : FS) (posts : list Post) (post : Post)
    (term : pystr) :
  post ∈ posts ->
  bs_index (index_posts fs (posts ++ [post])) !! term =
    (fun e => {| df := df e;
                 tf_total := tf_total e
                   + dict_get term 0%nat (Counter (tokenize_text (clean_text post)));
                 post_ids := post_ids e |})
    <$> bs_index (index_posts fs posts) !! term.
Proof.
  intros Hin. unfold index_posts. rewrite fold_left_app. cbn [fold_left].
  set (st := fold_left index_post posts _).
  destruct (index_post_cases st post) as [[Hno ->]|[_ (freq & meta & -> & ->)]].
  - unfold has_tokens in Hno.
    destruct (tokenize_text (clean_text post)); [|by destruct Hno].
    simpl. destruct (bs_index st !! term) as [[d n l]|]; simpl; [|done].
    by rewrite Nat.add_0_r.
  - simpl. apply add_postings_lookup_again; [apply Counter_NoDup|].
    intros k Hk. by apply index_posts_covers.
Qed.

Lemma sum_other_files pid freq files (g : list (pystr * nat) -> nat) (l : list pystr) :
  pid ∉ l ->
  sum_list_with (fun p => g (default [] (<[pid := freq]> files !! p))) l =
  sum_list_with (fun p => g (default [] (files !! p))) l.
Proof.
  induction l as [|p l IH]; intros Hpid; [done|].
  apply not_elem_of_cons in Hpid as [Hne Hpid].
  simpl. rewrite IH by done. by rewrite lookup_insert_ne.
Qed.

(** One round of the loop keeps the round trip when the document is new. *)
Lemma index_post_round_trip st post :
  round_trip (bs_files st) (bs_index st) ->
  (forall term e, bs_index st !! term = Some e -> pid_of post ∉ post_ids e) ->
  round_trip (bs_files (index_post st post)) (bs_index (index_post st post)).
Proof.
  intros Hrt Hfresh.
  destruct (index_post_cases st post) as [[_ ->]|[_ (freq & meta & Hfreq & ->)]]; [done|].
  simpl. intros term e'.
  rewrite add_postings_lookup_fresh.
  - destruct (bool_decide (term ∈ freq.*1)).
    + cbv zeta. intros [= <-]. unfold postings_tf. simpl.
      rewrite sum_list_with_app. simpl.
      rewrite lookup_insert_eq. simpl. rewrite Nat.add_0_r. f_equal.
      destruct (bs_index st !! term) as [e|] eqn:He; simpl; [|done].
      rewrite sum_other_files by (by eapply Hfresh). by apply Hrt.
    + intros He. unfold postings_tf.
      rewrite sum_other_files by (by eapply Hfresh). by apply Hrt.
  - rewrite Hfreq. apply Counter_NoDup.
  - intros k _. destruct (bs_index st !! k) as [e|] eqn:He; simpl.
    + by eapply Hfresh.
    + apply not_elem_of_nil.
Qed.

Lemma index_posts_round_trip posts st (seen : list pystr) :
  round_trip (bs_files st) (bs_index st) ->
  index_ok (fun pid => pid ∈ seen) (bs_index st) ->
  NoDup (seen ++ (pid_of <$> posts)) ->
  round_trip (bs_files (fold_left index_post posts st))
    (bs_index (fold_left index_post posts st)).
Proof.
  revert st seen. induction posts as [|p posts IH]; intros st seen Hrt Hok Hnd; [done|].
  simpl. simpl in Hnd.
  assert (pid_of p ∉ seen) as Hnew.
  { apply NoDup_app in Hnd as (_ & Hdisj & _). intros Hin.
    apply (Hdisj _ Hin). by left. }
  apply (IH _ (seen ++ [pid_of p])).
  - apply index_post_round_trip; [done|].
    intros term e He Hin. destruct (Hok _ _ He) as (_ & _ & _ & Hall).
    rewrite Forall_forall in Hall. by apply Hnew, Hall.
  - apply index_post_ok.
    + eapply index_ok_mono; [|exact Hok]. intros pid Hpid. apply elem_of_app. by left.
    + intros _. apply elem_of_app. right. by left.
  - by rewrite <- app_assoc.
Qed.

(** Over a corpus whose document ids are pairwise distinct, the sum of the
    files over the postings of a term is its [tf_total]. *)
Lemma round_trip_of_distinct_ids (fs : FS) (posts : list Post) :
  NoDup (pid_of <$> posts) ->
  round_trip (bs_files (index_posts fs posts)) (bs_index (index_posts fs posts)).
Proof.
  intros Hnd. apply (index_posts_round_trip posts _ []); simpl.
  - intros term e. by rewrite lookup_empty.
  - apply index_ok_empty.
  - done.
Qed.
End RoundTripFacts.

Section SortFacts.
Context `{F : PyFloat} {FL : FloatLaws F}.
Implicit Types (x y : pystr * float) (l : list (pystr * float)).

Lemma flt_asym (a b : float) : flt a b = true -> flt b a = false.
Proof.
  intros Hab. destruct (flt b a) eqn:Hba; [|done].
  pose proof (flt_trans _ _ _ Hab Hba) as H. by rewrite flt_irrefl in H.
Qed.

Lemma not_flt_trans (a b c : float) :
  flt a b = false -> flt b c = false -> flt a c = false.
Proof.
  intros Hab Hbc. destruct (flt a c) eqn:Hac; [|done].
  destruct (flt b a) eqn:Hba.
  - by rewrite (flt_trans _ _ _ Hba Hac) in Hbc.
  - rewrite (flt_total _ _ Hab Hba) in Hac. by rewrite Hac in Hbc.
Qed.

Lemma tied_eq (s a : float) : tied s a = true <-> s = a.
Proof.
  unfold tied. split.
  - intros [H1 H2]%andb_true_iff. apply negb_true_iff in H1, H2.
    by apply flt_total.
  - intros ->. by rewrite flt_irrefl.
Qed.

Lemma insert_desc_perm x l : insert_desc x l ≡ₚ x :: l.
Proof.
  induction l as [|y l IH]; simpl; [done|].
  destruct (flt (snd x) (snd y)); [|done].
  rewrite IH. apply Permutation_swap.
Qed.

Lemma sorted_desc_perm l : sorted_desc l ≡ₚ l.
Proof.
  induction l as [|x l IH]; simpl; [done|].
  rewrite insert_desc_perm. by rewrite IH.
Qed.

Lemma sorted_desc_length l : List.length (sorted_desc l) = List.length l.
Proof. apply Permutation_length, sorted_desc_perm. Qed.

Local Abbreviation ge_score := (fun x y => flt (snd x) (snd y) = false).

Lemma insert_desc_sorted x l :
  StronglySorted ge_score l -> StronglySorted ge_score (insert_desc x l).
Proof.
  induction l as [|y l IH]; simpl; intros Hs.
  - repeat constructor.
  - apply StronglySorted_inv in Hs as [Hs Hy].
    destruct (flt (snd x) (snd y)) eqn:Hxy.
    + constructor; [by apply IH|].
      rewrite insert_desc_perm. constructor; [by apply flt_asym | done].
    + constructor; [by constructor|].
      constructor; [done|].
      eapply Forall_impl; [exact Hy|]. simpl. intros z Hz.
      by eapply not_flt_trans.
Qed.

Lemma sorted_desc_sorted l : StronglySorted ge_score (sorted_desc l).
Proof.
  induction l as [|x l IH]; simpl; [constructor | by apply insert_desc_sorted].
Qed.

Lemma strongly_sorted_lookup (R : relation (pystr * float)) l i j a b :
  StronglySorted R l -> (i < j)%nat -> l !! i = Some a -> l !! j = Some b -> R a b.
Proof.
  intros Hs. revert i j. induction Hs as [|x l Hs IH Hx]; intros i j Hij Hi Hj.
  - by rewrite lookup_nil in Hi.
  - destruct j as [|j]; [lia|]. simpl in Hj. destruct i as [|i]; simpl in Hi.
    + injection Hi as <-. rewrite Forall_forall in Hx. apply Hx.
      by eapply list_elem_of_lookup_2.
    + eapply IH; [|done..]. lia.
Qed.

Lemma sorted_desc_descending l : descending (sorted_desc l).
Proof.
  intros i j a b Hij Hi Hj.
  exact (strongly_sorted_lookup _ _ _ _ _ _ (sorted_desc_sorted l) Hij Hi Hj).
Qed.

(** The sort is stable: items of equal score keep their order. *)
Lemma insert_desc_with_score s x l :
  with_score s (insert_desc x l) = with_score s (x :: l).
Proof.
  unfold with_score. induction l as [|y l IH]; simpl; [done|].
  destruct (flt (snd x) (snd y)) eqn:Hxy; [|done].
  simpl. rewrite IH. simpl.
  destruct (tied s (snd x)) eqn:Hx; [|done].
  destruct (tied s (snd y)) eqn:Hy; [|done].
  apply tied_eq in Hx, Hy. rewrite <- Hx, <- Hy, flt_irrefl in Hxy. done.
Qed.

Lemma sorted_desc_with_score s l : with_score s (sorted_desc l) = with_score s l.
Proof.
  induction l as [|x l IH]; simpl; [done|].
  rewrite insert_desc_with_score. unfold with_score in *. simpl. by rewrite IH.
Qed.
End SortFacts.

Section SearchFacts.
Context `{U : Unicode} `{L : Nltk} `{F : PyFloat}.
Implicit Types (fs : FS) (self : SearchEngine) (scores : list (pystr * float)).

Lemma print_scores_eq (top : list (pystr * float)) :
  print_scores top = (List.map (fun p => PostScore (fst p) (snd p)) top, inr tt).
Proof.
  induction top as [|[PID score] top IH]; simpl; [done|].
  by rewrite IH.
Qed.

(** The loop over the postings returns, whatever files are there. *)
Lemma score_posts_returns fs dbg term idf post_list scores :
  exists out scores', score_posts fs dbg term idf post_list scores = (out, inr scores').
Proof.
  revert scores. induction post_list as [|PID rest IH]; intros scores; simpl.
  - by eexists _, _.
  - destruct (json_posts fs !! PID) as [freqs|]; simpl.
    + destruct (IH (dict_set PID
        (fadd (dict_get PID (of_int 0) scores)
           (fmul (of_int (dict_get term 0%nat freqs)) idf)) scores))
        as (out & scores' & Hrest).
      destruct dbg; simpl; rewrite Hrest; by eexists _, _.
    + destruct (IH scores) as (out & scores' & ->). by eexists _, _.
Qed.

Lemma idf_of_eq (total_docs df : nat) :
  idf_of total_docs df =
    ([], inr (if (df =? 0)%nat then of_int 0
              else flog (fadd (of_int 1) (truediv total_docs df)))).
Proof.
  unfold idf_of, div_int. by destruct (df =? 0)%nat.
Qed.

Lemma scores_of_eq fs self term e :
  inverted_index self !! term = Some e ->
  scores_of fs self term =
    score_posts fs (debug self) term
      (if (df e =? 0)%nat then of_int 0
       else flog (fadd (of_int 1) (truediv (size (post_metadata self)) (df e))))
      (post_ids e) [].
Proof.
  intros He. unfold scores_of, getitem. rewrite He. simpl.
  rewrite idf_of_eq. simpl.
  by destruct (score_posts _ _ _ _ _ _).
Qed.

Lemma scores_of_returns fs self term e :
  inverted_index self !! term = Some e ->
  exists out scores, scores_of fs self term = (out, inr scores).
Proof.
  intros He. rewrite (scores_of_eq _ _ _ _ He). apply score_posts_returns.
Qed.

Lemma search_no_term fs self Query :
  preprocess_query Query = [] -> search fs self Query = ([NoValidTerm], inr []).
Proof. unfold search. by intros ->. Qed.

Lemma search_not_found fs self Query term rest :
  preprocess_query Query = term :: rest ->
  inverted_index self !! term = None ->
  search fs self Query = ([SearchingFor term; TermNotFound term], inr []).
Proof. unfold search. intros -> Hnone. simpl. by rewrite Hnone. Qed.

Lemma search_found fs self Query term rest e out scores :
  preprocess_query Query = term :: rest ->
  inverted_index self !! term = Some e ->
  scores_of fs self term = (out, inr scores) ->
  search fs self Query =
    (SearchingFor term :: out ++ TopMatchingPosts ::
       List.map (fun p => PostScore (fst p) (snd p)) (take 20 (sorted_desc scores)),
     inr (List.map fst (take 20 (sorted_desc scores)))).
Proof.
  unfold search. intros -> He Hs. simpl. rewrite He, Hs. simpl.
  rewrite print_scores_eq. simpl. by rewrite app_nil_r.
Qed.

(** [search] returns on every query. *)
Lemma search_returns fs self Query :
  exists ids, outcome (search fs self Query) = inr ids.
Proof.
  destruct (preprocess_query Query) as [|term rest] eqn:Hq.
  - rewrite search_no_term by done. by eexists.
  - destruct (inverted_index self !! term) as [e|] eqn:He.
    + destruct (scores_of_returns fs self term e He) as (out & scores & Hs).
      rewrite (search_found _ _ _ _ _ _ _ _ Hq He Hs). by eexists.
    + rewrite (search_not_found _ _ _ _ _ Hq He). by eexists.
Qed.

(** With a file for every posting and no posting twice, the loop scores every
    posting, in the order of the postings. *)
Lemma score_posts_keys fs dbg term idf post_list scores :
  NoDup post_list ->
  (forall pid, pid ∈ post_list -> pid ∉ scores.*1) ->
  Forall (fun pid => is_Some (json_posts fs !! pid)) post_list ->
  exists out scores',
    score_posts fs dbg term idf post_list scores = (out, inr scores') /\
    scores'.*1 = scores.*1 ++ post_list.
Proof.
  revert scores. induction post_list as [|PID rest IH]; intros scores Hnd Hfresh Hfiles.
  - simpl. eexists _, _. split; [done|]. by rewrite app_nil_r.
  - apply NoDup_cons in Hnd as [Hnotin Hnd].
    apply Forall_cons in Hfiles as [[freqs Hfile] Hfiles].
    assert (PID ∉ scores.*1) as HPID by (apply Hfresh; by left).
    cbn [score_posts]. rewrite Hfile.
    rewrite (dict_set_fresh _ _ _ HPID).
    match goal with |- context [scores ++ [?x]] =>
      destruct (IH (scores ++ [x])) as (out & scores' & Hrest & Hkeys); [done| |done|]
    end.
    + intros pid Hpid. rewrite fmap_app. simpl.
      intros [Hin|Hin%list_elem_of_singleton]%elem_of_app.
      * eapply Hfresh; [by right | done].
      * by subst.
    + rewrite fmap_app, <- app_assoc in Hkeys. simpl in Hkeys.
      destruct dbg; simpl; rewrite Hrest; eexists _, _; (split; [reflexivity | exact Hkeys]).
Qed.

Context {FL : FloatLaws F}.

(** With a file for every posting and no posting twice, the loop scores the
    postings one by one, in their order. *)
Lemma score_posts_fresh fs term idf post_list scores :
  NoDup post_list ->
  (forall pid, pid ∈ post_list -> pid ∉ scores.*1) ->
  Forall (fun pid => is_Some (json_posts fs !! pid)) post_list ->
  score_posts fs false term idf post_list scores =
    ([], inr (scores ++
              List.map (fun pid => (pid, fmul (of_int (file_tf fs pid term)) idf))
                post_list)).
Proof.
  revert scores. induction post_list as [|PID rest IH]; intros scores Hnd Hfresh Hfiles.
  - simpl. by rewrite app_nil_r.
  - apply NoDup_cons in Hnd as [Hnotin Hnd].
    apply Forall_cons in Hfiles as [[freqs Hfile] Hfiles].
    assert (PID ∉ scores.*1) as HPID by (apply Hfresh; by left).
    simpl. unfold file_tf at 1. rewrite Hfile. simpl.
    rewrite (dict_get_fresh _ _ _ HPID), (dict_set_fresh _ _ _ HPID), fadd_0_l.
    rewrite IH; [|done| |done].
    + simpl. by rewrite <- app_assoc.
    + intros pid Hpid. rewrite fmap_app. simpl.
      intros [Hin|Hin%list_elem_of_singleton]%elem_of_app.
      * eapply Hfresh; [by right | done].
      * by subst.
Qed.
End SearchFacts.

(** ** The claims *)

Section NormaliserClaims.
Context `{U : Unicode} `{L : Nltk}.

(** C1: the query is not normalised as the documents are.  [preprocess_query]
    keeps the two-letter word [tv], and keeps the letters of a URL as a word,
    where tokenizing [clean_text] of the same string gives no token at all;
    and it gives no term for [covid19], which [clean_text] turns into the stem
    of [covid].  The query pipeline has no URL stripping, no digit stripping
    and no length filter (nor non-ASCII stripping), although its docstring
    announces the logic of index building. *)
Theorem preprocess_query_is_not_clean_text :
  str "tv" ∉ stop_words -> str "httpabcd" ∉ stop_words -> str "covid" ∉ stop_words ->
  preprocess_query (str "tv") = [stem (str "tv")]
  /\ tokenize_text (Some (DataCleaner.clean_text (Some (str "tv")))) = []
  /\ preprocess_query (str "http://ab.cd") = [stem (str "httpabcd")]
  /\ tokenize_text (Some (DataCleaner.clean_text (Some (str "http://ab.cd")))) = []
  /\ preprocess_query (str "covid19") = []
  /\ DataCleaner.clean_text (Some (str "covid19")) = stem (str "covid").
Proof.
  intros Htv Hurl Hcovid.
  assert (forall q w,
    whitespace_tokenize (remove_punctuation (re_sub mention_re (lower q))) = [w] ->
    isalpha w = true -> w ∉ stop_words -> preprocess_query q = [stem w]) as Hquery.
  { intros q w Htok Halpha Hstop. unfold preprocess_query. rewrite Htok. simpl.
    rewrite Halpha. by rewrite bool_decide_eq_false_2. }
  split_and!.
  - apply Hquery; [by vm_compute | by vm_compute | done].
  - unfold DataCleaner.clean_text.
    change (str "tv") with [116; 118]. cbv zeta.
    replace (whitespace_tokenize _) with [[116; 118]] by (by vm_compute).
    simpl. unfold DataCleaner.keep_word. simpl List.length.
    by rewrite andb_false_r.
  - apply Hquery; [by vm_compute | by vm_compute | done].
  - unfold DataCleaner.clean_text.
    replace (str "http://ab.cd") with [104; 116; 116; 112; 58; 47; 47; 97; 98; 46; 99; 100]
      by (by vm_compute).
    cbv zeta.
    replace (whitespace_tokenize _) with (@nil pystr) by (by vm_compute).
    done.
  - unfold preprocess_query.
    replace (whitespace_tokenize _) with [str "covid19"] by (by vm_compute).
    simpl. replace (isalpha (str "covid19")) with false by (by vm_compute). done.
  - unfold DataCleaner.clean_text.
    replace (str "covid19") with [99; 111; 118; 105; 100; 49; 57] by (by vm_compute).
    cbv zeta.
    replace (whitespace_tokenize _) with [str "covid"] by (by vm_compute).
    simpl. unfold DataCleaner.keep_word.
    rewrite bool_decide_eq_false_2 by done.
    replace (isalpha (str "covid")) with true by (by vm_compute). done.
Qed.
End NormaliserClaims.

Section BuilderClaims.
Context `{U : Unicode}.

(** C5: after a build over any corpus, every term of the postings table has
    [df] equal to the length of its postings list, and no document id occurs
    twice in that list.  The table is the one that the build writes; for the
    empty corpus the build returns before it writes anything. *)
Theorem build_df_is_number_of_postings (fs : FS) (posts : list Post) :
  let idx := bs_index (index_posts fs posts) in
  (forall term e, idx !! term = Some e ->
     df e = List.length (post_ids e) /\ NoDup (post_ids e)) /\
  (posts <> [] -> inverted_index_json (build_inverted_index fs posts) = Some idx) /\
  (posts = [] -> build_inverted_index fs posts = fs).
Proof.
  intros idx. split_and!.
  - intros term e He.
    assert (index_ok (fun _ => True) idx) as Hok.
    { apply index_posts_ok; [apply index_ok_empty | done]. }
    destruct (Hok _ _ He) as (Hdf & Hnd & _). done.
  - by destruct posts.
  - by intros ->.
Qed.

(** C6, at a corpus in which one post comes twice: [tf_total] of the term is
    2, while its postings hold the one document, whose file records the
    frequency 1; the sum over the postings is 1. *)
Theorem tf_total_exceeds_sum_of_files (fs : FS) :
  let post := Sample.post 1 "cat" in
  let fs' := build_inverted_index fs [post; post] in
  exists idx e,
    inverted_index_json fs' = Some idx /\ idx !! str "cat" = Some e /\
    tf_total e = 2%nat /\ post_ids e = [str "1"] /\
    json_posts fs' !! str "1" = Some [(str "cat", 1%nat)] /\
    postings_tf (json_posts fs') (str "cat") e = 1%nat.
Proof.
  intros post fs'.
  assert (json_posts fs' !! str "1" = Some [(str "cat", 1%nat)]) as Hfile.
  { unfold fs'. simpl. unfold index_posts. simpl.
    unfold index_post. simpl.
    replace (str_int 1) with (str "1") by (by vm_compute).
    by rewrite lookup_insert_eq. }
  eexists _, {| df := 1; tf_total := 2; post_ids := [str "1"] |}.
  split_and!; [reflexivity | by vm_compute | done | done | done |].
  unfold postings_tf. cbn [post_ids sum_list_with]. rewrite Hfile. by vm_compute.
Qed.

(** C7, at the post 1 with text [cat]: building with the post once and
    building with it twice give the same [df] and postings for its term, but
    not the same [tf_total], which is 1 in the first table and 2 in the
    second. *)
Theorem tf_total_is_not_idempotent (fs : FS) :
  let post := Sample.post 1 "cat" in
  let once := build_inverted_index fs [post] in
  let twice := build_inverted_index fs [post; post] in
  (inverted_index_json once ≫= (.!! str "cat")) =
    Some {| df := 1; tf_total := 1; post_ids := [str "1"] |} /\
  (inverted_index_json twice ≫= (.!! str "cat")) =
    Some {| df := 1; tf_total := 2; post_ids := [str "1"] |}.
Proof. split; by vm_compute. Qed.

End BuilderClaims.

Section BuiltEngine.
Context `{U : Unicode} `{L : Nltk} `{F : PyFloat}.

(** The engine constructed over the artifacts of a build holds the tables of
    that build. *)
Lemma built_engine (fs0 : FS) (posts : list Post) (self : SearchEngine) :
  posts <> [] ->
  outcome (__init__ (build_inverted_index fs0 posts)) = inr self ->
  self = {| inverted_index := bs_index (index_posts fs0 posts);
            post_metadata := bs_metadata (index_posts fs0 posts);
            debug := false |}.
Proof.
  intros Hne. destruct posts as [|p posts]; [done|].
  simpl. by intros [= <-].
Qed.

Lemma built_index_ok (fs0 : FS) (posts : list Post) :
  index_ok (fun pid => is_Some (bs_files (index_posts fs0 posts) !! pid))
    (bs_index (index_posts fs0 posts)).
Proof.
  apply index_posts_ok; [apply index_ok_empty|].
  intros post Hin Htok. by apply index_posts_files.
Qed.

(** Over the artifacts of a build, the loop of [search] gives every document
    of the postings its frequency times the idf, prints nothing and skips
    nothing. *)
Lemma built_scores {FL : FloatLaws F} (fs0 : FS) (posts : list Post)
    (self : SearchEngine) (term : pystr) (e : IndexEntry) :
  posts <> [] ->
  let fs := build_inverted_index fs0 posts in
  outcome (__init__ fs) = inr self ->
  inverted_index self !! term = Some e ->
  (0 < df e)%nat /\ NoDup (post_ids e) /\
  post_metadata_json fs = Some (post_metadata self) /\
  scores_of fs self term =
    ([], inr (List.map
                (fun pid => (pid, tf_idf (file_tf fs pid term)
                                    (size (post_metadata self)) (df e)))
                (post_ids e))).
Proof.
  intros Hne fs Hinit He.
  pose proof (built_engine _ _ _ Hne Hinit) as ->. simpl in He.
  destruct (built_index_ok fs0 posts _ _ He) as (Hdf & Hnd & Hpos & Hfiles).
  split_and!; [done | done | by destruct posts |].
  rewrite (scores_of_eq _ _ _ e) by done. simpl.
  destruct (Nat.eqb_spec (df e) 0) as [Hz|_]; [lia|].
  assert (json_posts fs = bs_files (index_posts fs0 posts)) as Hjson
    by (by destruct posts).
  rewrite score_posts_fresh; [done | done | | by rewrite Hjson].
  intros pid _. simpl. by apply not_elem_of_nil.
Qed.
End BuiltEngine.

Section SearchClaims.
Context `{U : Unicode} `{L : Nltk} `{F : PyFloat}.

(** C2: over the artifacts of a build, for a query whose first term is in the
    postings table, [search] scores every document of the postings as its
    frequency times [idf = log(1 + N / df)], with [N] the number of entries of
    the metadata artifact and [df > 0], and ranks these scores. *)
Theorem search_scores_tf_times_idf {FL : FloatLaws F} (fs0 : FS) (posts : list Post)
    (self : SearchEngine) (Query term : pystr) (rest : list pystr) (e : IndexEntry) :
  posts <> [] ->
  let fs := build_inverted_index fs0 posts in
  outcome (__init__ fs) = inr self ->
  preprocess_query Query = term :: rest ->
  inverted_index self !! term = Some e ->
  let N := size (post_metadata self) in
  let scores :=
    List.map (fun pid => (pid, tf_idf (file_tf fs pid term) N (df e))) (post_ids e) in
  (0 < df e)%nat /\
  post_metadata_json fs = Some (post_metadata self) /\
  scores_of fs self term = ([], inr scores) /\
  search fs self Query =
    (SearchingFor term :: TopMatchingPosts ::
       List.map (fun p => PostScore (fst p) (snd p)) (take 20 (sorted_desc scores)),
     inr (List.map fst (take 20 (sorted_desc scores)))).
Proof.
  intros Hne fs Hinit Hq He N scores.
  destruct (built_scores fs0 posts self term e Hne Hinit He) as (Hdf & _ & Hmeta & Hs).
  split_and!; [done | done | done |].
  exact (search_found _ _ _ _ _ _ _ _ Hq He Hs).
Qed.
End SearchClaims.

Section RankingFacts.
Context `{U : Unicode} `{L : Nltk} `{F : PyFloat}.

Lemma printed_ranking_scores (top : list (pystr * float)) :
  printed_ranking (List.map (fun p => PostScore (fst p) (snd p)) top) = top.
Proof.
  induction top as [|[PID score] top IH]; [done|].
  unfold printed_ranking in *. simpl. f_equal. exact IH.
Qed.

(** The loop over the postings prints no line of the ranking. *)
Lemma score_posts_prints_no_ranking (fs : FS) dbg term idf post_list scores :
  printed_ranking (printed (score_posts fs dbg term idf post_list scores)) = [].
Proof.
  revert scores. induction post_list as [|PID rest IH]; intros scores; [done|].
  simpl. destruct (json_posts fs !! PID) as [freqs|].
  - destruct dbg; simpl;
      match goal with |- context [score_posts fs ?d term idf rest ?s] =>
        specialize (IH s); destruct (score_posts fs d term idf rest s) as [out r]
      end; exact IH.
  - simpl. specialize (IH scores).
    destruct (score_posts fs dbg term idf rest scores). exact IH.
Qed.

Context {FL : FloatLaws F}.

(** In a descending ranking, the items after the first [k] do not beat any of
    the first [k]; they are beaten by them if all scores differ. *)
Lemma descending_top (k : nat) (ranked : list (pystr * float)) a b :
  descending ranked -> a ∈ take k ranked -> b ∈ drop k ranked ->
  flt (snd a) (snd b) = false.
Proof.
  intros Hd (i & Hi & Hlt)%elem_of_take (j & Hj)%list_elem_of_lookup.
  rewrite lookup_drop in Hj. apply (Hd i (k + j)%nat a b); [lia | done | done].
Qed.

Lemma descending_top_strict (k : nat) (ranked : list (pystr * float)) a b :
  descending ranked -> NoDup (List.map snd ranked) ->
  a ∈ take k ranked -> b ∈ drop k ranked ->
  flt (snd b) (snd a) = true.
Proof.
  intros Hd Hnd Ha Hb.
  pose proof (descending_top k ranked a b Hd Ha Hb) as Hab.
  destruct (flt (snd b) (snd a)) eqn:Hba; [done|]. exfalso.
  pose proof (flt_total _ _ Hab Hba) as Heq.
  apply elem_of_take in Ha as (i & Hi & Hlt).
  apply list_elem_of_lookup in Hb as (j & Hj). rewrite lookup_drop in Hj.
  assert (i = (k + j)%nat); [|lia].
  apply (NoDup_lookup (List.map snd ranked) i (k + j)%nat (snd a)); [done|..].
  - change (List.map snd ranked) with (snd <$> ranked).
    by rewrite list_lookup_fmap, Hi.
  - change (List.map snd ranked) with (snd <$> ranked).
    by rewrite list_lookup_fmap, Hj, Heq.
Qed.
End RankingFacts.

Section RankingClaims.
Context `{U : Unicode} `{L : Nltk} `{F : PyFloat} {FL : FloatLaws F}.

(** C3, amended: for a query whose first term is in the postings table,
    [search] returns the document ids (not the pairs, which it prints) of the
    first 20 items of the ranking of the scored documents, highest score
    first: exactly 20 when more than 20 documents are scored, all of them
    otherwise; no document left out has a higher score than one returned, and
    each has a lower score when the scores are distinct.  The scored
    documents are those of the postings, when no posting comes twice and none
    lacks its file. *)
Theorem search_returns_ids_of_top_20 (fs : FS) (self : SearchEngine)
    (Query term : pystr) (rest : list pystr) (e : IndexEntry) :
  preprocess_query Query = term :: rest ->
  inverted_index self !! term = Some e ->
  exists out scores,
    scores_of fs self term = (out, inr scores) /\
    let ranked := sorted_desc scores in
    outcome (search fs self Query) = inr (List.map fst (take 20 ranked)) /\
    printed_ranking (printed (search fs self Query)) = take 20 ranked /\
    ranked ≡ₚ scores /\ descending ranked /\
    List.length (take 20 ranked) = Nat.min 20 (List.length scores) /\
    (forall a b, a ∈ take 20 ranked -> b ∈ drop 20 ranked ->
       flt (snd a) (snd b) = false) /\
    (NoDup (List.map snd scores) ->
     forall a b, a ∈ take 20 ranked -> b ∈ drop 20 ranked ->
       flt (snd b) (snd a) = true) /\
    (NoDup (post_ids e) ->
     Forall (fun pid => is_Some (json_posts fs !! pid)) (post_ids e) ->
     List.map fst scores = post_ids e).
Proof.
  intros Hq He.
  destruct (scores_of_returns fs self term e He) as (out & scores & Hs).
  exists out, scores. split; [done|]. intros ranked.
  rewrite (search_found _ _ _ _ _ _ _ _ Hq He Hs). fold ranked.
  split_and!.
  - done.
  - assert (printed_ranking out = []) as Hout.
    { pose proof (score_posts_prints_no_ranking fs (debug self) term
        (if (df e =? 0)%nat then of_int 0
         else flog (fadd (of_int 1) (truediv (size (post_metadata self)) (df e))))
        (post_ids e) []) as Hp.
      rewrite <- (scores_of_eq _ _ _ _ He), Hs in Hp. done. }
    unfold printed. simpl. unfold printed_ranking in *. simpl.
    rewrite omap_app, Hout. simpl.
    apply printed_ranking_scores.
  - apply sorted_desc_perm.
  - apply sorted_desc_descending.
  - unfold ranked. by rewrite length_take, sorted_desc_length.
  - intros a b. apply descending_top, sorted_desc_descending.
  - intros Hnd a b. apply descending_top_strict; [apply sorted_desc_descending|].
    assert (List.map snd ranked ≡ₚ List.map snd scores) as Hperm
      by apply Permutation_map, sorted_desc_perm.
    by rewrite Hperm.
  - intros Hnd Hfiles.
    rewrite (scores_of_eq _ _ _ _ He) in Hs.
    destruct (score_posts_keys fs (debug self) term
      (if (df e =? 0)%nat then of_int 0
       else flog (fadd (of_int 1) (truediv (size (post_metadata self)) (df e))))
      (post_ids e) []) as (out' & scores' & Hs' & Hkeys);
      [exact Hnd | | exact Hfiles |].
    + intros pid _. apply not_elem_of_nil.
    + rewrite Hs in Hs'. injection Hs' as _ <-. exact Hkeys.
Qed.

(** C4, amended: over the artifacts of a build, [search] scores the documents
    in the order of the term's postings list, and the ranking keeps documents
    of equal score in that order: the sort is stable and has no second key. *)
Theorem ties_keep_the_order_of_the_postings (fs0 : FS) (posts : list Post)
    (self : SearchEngine) (Query term : pystr) (rest : list pystr) (e : IndexEntry) :
  posts <> [] ->
  let fs := build_inverted_index fs0 posts in
  outcome (__init__ fs) = inr self ->
  preprocess_query Query = term :: rest ->
  inverted_index self !! term = Some e ->
  exists scores,
    scores_of fs self term = ([], inr scores) /\
    List.map fst scores = post_ids e /\
    outcome (search fs self Query) = inr (List.map fst (take 20 (sorted_desc scores))) /\
    forall s, with_score s (sorted_desc scores) = with_score s scores.
Proof.
  intros Hne fs Hinit Hq He.
  destruct (built_scores fs0 posts self term e Hne Hinit He) as (_ & _ & _ & Hs).
  subst fs. eexists. split; [exact Hs|]. split_and!.
  - rewrite List.map_map. simpl. apply List.map_id.
  - by rewrite (search_found _ _ _ _ _ _ _ _ Hq He Hs).
  - intros s. apply sorted_desc_with_score.
Qed.

End RankingClaims.

Section LoadingClaims.
Context `{U : Unicode} `{L : Nltk} `{F : PyFloat}.

(** C10: [search] raises on no query.  When the query has no term left it
    prints the no-valid-term message and returns the empty list; when its
    first term is not in the postings table it prints the term-not-found
    message and returns the empty list; the messages printed tell the two
    apart. *)
Theorem search_never_raises (fs : FS) (self : SearchEngine) (Query : pystr) :
  (exists ids, outcome (search fs self Query) = inr ids) /\
  (preprocess_query Query = [] ->
     search fs self Query = ([NoValidTerm], inr [])) /\
  (forall term rest, preprocess_query Query = term :: rest ->
     inverted_index self !! term = None ->
     search fs self Query = ([SearchingFor term; TermNotFound term], inr [])) /\
  (forall term, [NoValidTerm] <> [SearchingFor term; TermNotFound term]).
Proof.
  split_and!.
  - apply search_returns.
  - apply search_no_term.
  - apply search_not_found.
  - done.
Qed.

(** C9, amended: constructing the engine never fails.  An absent postings or
    metadata artifact is reported by a file-not-found message and replaced by
    an empty table; with the postings artifact absent every [search] returns
    the empty list with the no-valid-term or the term-not-found message, and
    with the metadata artifact absent [show_post_info] prints not-found. *)
Theorem engine_loads_absent_artifacts_as_empty (fs : FS) :
  exists out self,
    __init__ fs = (out, inr self) /\
    inverted_index self = default ∅ (inverted_index_json fs) /\
    post_metadata self = default ∅ (post_metadata_json fs) /\
    (inverted_index_json fs = None -> FileNotFound index_path ∈ out) /\
    (post_metadata_json fs = None -> FileNotFound metadata_path ∈ out) /\
    (inverted_index_json fs = None -> forall Query,
       search fs self Query = ([NoValidTerm], inr []) \/
       exists term,
         search fs self Query = ([SearchingFor term; TermNotFound term], inr [])) /\
    (post_metadata_json fs = None -> forall pid,
       show_post_info self pid = ([PostNotFound pid], inr tt)).
Proof.
  assert (forall fs' meta Query,
    search fs' {| inverted_index := ∅; post_metadata := meta; debug := false |} Query
      = ([NoValidTerm], inr []) \/
    exists term,
      search fs' {| inverted_index := ∅; post_metadata := meta; debug := false |} Query
        = ([SearchingFor term; TermNotFound term], inr [])) as Hempty.
  { intros fs' meta Query. destruct (preprocess_query Query) as [|term rest] eqn:Hq.
    - left. by apply search_no_term.
    - right. exists term. eapply search_not_found; [done|]. apply lookup_empty. }
  assert (forall idx pid,
    show_post_info {| inverted_index := idx; post_metadata := ∅; debug := false |} pid
      = ([PostNotFound pid], inr tt)) as Hshow.
  { intros idx pid. unfold show_post_info. simpl. by rewrite lookup_empty. }
  destruct fs as [[idx|] [meta|] files]; simpl; eexists _, _;
    (split; [reflexivity|]); simpl; split_and!;
    try done; try (intros _; set_solver); intros _; first [apply Hempty | apply Hshow].
Qed.
End LoadingClaims.

(** ** The claims at concrete inputs *)

Section Examples.
Import Sample.
#[local] Existing Instances ascii_only small_nltk int_float.

Lemma int_float_laws : FloatLaws int_float.
Proof.
  split; simpl.
  - intros x. apply Z.ltb_irrefl.
  - intros x y z Hxy Hyz. apply Z.ltb_lt. apply Z.ltb_lt in Hxy, Hyz. lia.
  - intros x y Hxy Hyx. apply Z.ltb_ge in Hxy, Hyx. lia.
  - intros x. done.
Qed.

Lemma real_float_laws : FloatLaws Ideal.real_float.
Proof.
  split; simpl.
  - intros x. destruct (Rlt_dec x x); [lra | done].
  - intros x y z. destruct (Rlt_dec x y), (Rlt_dec y z), (Rlt_dec x z); try done. lra.
  - intros x y. destruct (Rlt_dec x y), (Rlt_dec y x); try done. intros _ _. lra.
  - intros x. lra.
Qed.

(** In real arithmetic the score is [tf * ln (1 + N / df)]. *)
Lemma tf_idf_real (tf N df : nat) :
  tf_idf (F := Ideal.real_float) tf N df = (INR tf * ln (1 + INR N / INR df))%R.
Proof. reflexivity. Qed.

(** The three posts of the corpus and the query [Cats], whatever the floats:
    [idf = log(1 + 3/2)], document 1 scores twice that and comes first. *)
Lemma three_posts_scores `{F : PyFloat} {FL : FloatLaws F} :
  scores_of store (engine_over store) (str "cat")
    = ([], inr [(str "1", tf_idf 2 3 2); (str "2", tf_idf 1 3 2)]).
Proof.
  assert (corpus <> []) as Hne by discriminate.
  assert (outcome (__init__ (build_inverted_index no_files corpus))
            = inr (engine_over store)) as Hinit by (vm_compute; reflexivity).
  assert (SearchEngine.inverted_index (engine_over store) !! str "cat"
            = Some {| df := 2; tf_total := 3; post_ids := [str "1"; str "2"] |})
    as He by (vm_compute; reflexivity).
  destruct (built_scores no_files corpus (engine_over store) (str "cat") _ Hne Hinit He)
    as (_ & _ & _ & Hs).
  etransitivity; [exact Hs|]. cbn [List.map post_ids df].
  replace (size (SearchEngine.post_metadata (engine_over store))) with 3%nat
    by (vm_compute; reflexivity).
  replace (file_tf _ (str "1") (str "cat")) with 2%nat by (vm_compute; reflexivity).
  replace (file_tf _ (str "2") (str "cat")) with 1%nat by (vm_compute; reflexivity).
  reflexivity.
Qed.

(** The two posts of equal score, whatever the floats: the document indexed
    first is returned first. *)
Lemma tied_posts_keep_postings_order `{F : PyFloat} {FL : FloatLaws F} :
  outcome (search tied_store (engine_over tied_store) (str "cat"))
    = inr [str "2"; str "1"].
Proof.
  assert (tied_corpus <> []) as Hne by discriminate.
  assert (outcome (__init__ (build_inverted_index no_files tied_corpus))
            = inr (engine_over tied_store)) as Hinit by (vm_compute; reflexivity).
  assert (preprocess_query (str "cat") = [str "cat"]) as Hq
    by (vm_compute; reflexivity).
  assert (SearchEngine.inverted_index (engine_over tied_store) !! str "cat"
            = Some {| df := 2; tf_total := 2; post_ids := [str "2"; str "1"] |})
    as He by (vm_compute; reflexivity).
  destruct (built_scores no_files tied_corpus (engine_over tied_store) (str "cat") _
              Hne Hinit He) as (_ & _ & _ & Hs).
  rewrite (search_found tied_store _ _ _ _ _ _ _ Hq He Hs).
  cbn [outcome snd List.map post_ids].
  replace (file_tf _ (str "2") (str "cat")) with 1%nat by (vm_compute; reflexivity).
  replace (file_tf _ (str "1") (str "cat")) with 1%nat by (vm_compute; reflexivity).
  cbn [sorted_desc foldr insert_desc snd]. by rewrite flt_irrefl.
Qed.

Lemma not_stop_word (w : pystr) :
  bool_decide (w ∈ stop_words) = false -> w ∉ stop_words.
Proof. apply bool_decide_eq_false. Qed.

Lemma preprocess_query_is_not_clean_text_witness :
  preprocess_query (str "tv") = [stem (str "tv")]
  /\ tokenize_text (Some (DataCleaner.clean_text (Some (str "tv")))) = []
  /\ preprocess_query (str "http://ab.cd") = [stem (str "httpabcd")]
  /\ tokenize_text (Some (DataCleaner.clean_text (Some (str "http://ab.cd")))) = []
  /\ preprocess_query (str "covid19") = []
  /\ DataCleaner.clean_text (Some (str "covid19")) = stem (str "covid").
Proof.
  apply preprocess_query_is_not_clean_text; apply not_stop_word; vm_compute; reflexivity.
Defined.

Lemma build_df_is_number_of_postings_witness :
  exists idx e,
    inverted_index_json (build_inverted_index no_files corpus) = Some idx /\
    idx !! str "cat" = Some e /\
    df e = List.length (post_ids e) /\ NoDup (post_ids e).
Proof.
  destruct (build_df_is_number_of_postings no_files corpus) as (Hinv & Hwritten & _).
  exists (bs_index (index_posts no_files corpus)),
    {| df := 2; tf_total := 3; post_ids := [str "1"; str "2"] |}.
  assert (bs_index (index_posts no_files corpus) !! str "cat"
            = Some {| df := 2; tf_total := 3; post_ids := [str "1"; str "2"] |})
    as He by (vm_compute; reflexivity).
  split; [apply Hwritten; discriminate|].
  split; [exact He|].
  exact (Hinv _ _ He).
Defined.


Lemma search_scores_tf_times_idf_witness :
  scores_of store (engine_over store) (str "cat")
    = ([], inr [(str "1", 2%Z); (str "2", 1%Z)])
  /\ search store (engine_over store) (str "Cats")
      = ([SearchingFor (str "cat"); TopMatchingPosts;
          PostScore (str "1") 2%Z; PostScore (str "2") 1%Z],
         inr [str "1"; str "2"]).
Proof.
  assert (corpus <> []) as Hne by discriminate.
  assert (outcome (__init__ (build_inverted_index no_files corpus))
            = inr (engine_over store)) as Hinit by (vm_compute; reflexivity).
  assert (preprocess_query (str "Cats") = [str "cat"]) as Hq
    by (vm_compute; reflexivity).
  assert (SearchEngine.inverted_index (engine_over store) !! str "cat"
            = Some {| df := 2; tf_total := 3; post_ids := [str "1"; str "2"] |})
    as He by (vm_compute; reflexivity).
  destruct (search_scores_tf_times_idf (FL := int_float_laws) no_files corpus
              (engine_over store) (str "Cats") (str "cat") [] _ Hne Hinit Hq He)
    as (_ & _ & Hscores & Hsearch).
  split.
  - etransitivity; [exact Hscores|]. vm_compute. reflexivity.
  - etransitivity; [exact Hsearch|]. vm_compute. reflexivity.
Defined.

Lemma search_returns_ids_of_top_20_witness :
  exists out scores,
    scores_of store (engine_over store) (str "cat") = (out, inr scores) /\
    let ranked := sorted_desc scores in
    outcome (search store (engine_over store) (str "Cats"))
      = inr (List.map fst (take 20 ranked)) /\
    printed_ranking (printed (search store (engine_over store) (str "Cats")))
      = take 20 ranked /\
    ranked ≡ₚ scores /\ descending ranked /\
    List.length (take 20 ranked) = Nat.min 20 (List.length scores) /\
    (forall a b, a ∈ take 20 ranked -> b ∈ drop 20 ranked ->
       flt (snd a) (snd b) = false) /\
    (NoDup (List.map snd scores) ->
     forall a b, a ∈ take 20 ranked -> b ∈ drop 20 ranked ->
       flt (snd b) (snd a) = true) /\
    (NoDup [str "1"; str "2"] ->
     Forall (fun pid => is_Some (json_posts store !! pid)) [str "1"; str "2"] ->
     List.map fst scores = [str "1"; str "2"]).
Proof.
  apply (search_returns_ids_of_top_20 (FL := int_float_laws) store
           (engine_over store) (str "Cats") (str "cat") []
           {| df := 2; tf_total := 3; post_ids := [str "1"; str "2"] |}).
  - vm_compute. reflexivity.
  - vm_compute. reflexivity.
Defined.

Lemma ties_keep_the_order_of_the_postings_witness :
  exists scores,
    scores_of tied_store (engine_over tied_store) (str "cat") = ([], inr scores) /\
    List.map fst scores = [str "2"; str "1"] /\
    outcome (search tied_store (engine_over tied_store) (str "cat"))
      = inr (List.map fst (take 20 (sorted_desc scores))) /\
    forall s, with_score s (sorted_desc scores) = with_score s scores.
Proof.
  apply (ties_keep_the_order_of_the_postings (FL := int_float_laws) no_files
           tied_corpus (engine_over tied_store) (str "cat") (str "cat") []
           {| df := 2; tf_total := 2; post_ids := [str "2"; str "1"] |}).
  - discriminate.
  - reflexivity.
  - vm_compute. reflexivity.
  - vm_compute. reflexivity.
Defined.

Lemma search_never_raises_witness :
  search store (engine_over store) (str "!!! the 42") = ([NoValidTerm], inr [])
  /\ search store (engine_over store) (str "horses")
      = ([SearchingFor (str "horse"); TermNotFound (str "horse")], inr []).
Proof.
  destruct (search_never_raises store (engine_over store) (str "!!! the 42"))
    as (_ & Hnone & _).
  destruct (search_never_raises store (engine_over store) (str "horses"))
    as (_ & _ & Habsent & _).
  split.
  - apply Hnone. vm_compute. reflexivity.
  - apply (Habsent (str "horse") []); vm_compute; reflexivity.
Defined.

Lemma engine_loads_absent_artifacts_as_empty_witness :
  exists out self,
    __init__ no_files = (out, inr self) /\
    SearchEngine.inverted_index self = ∅ /\ SearchEngine.post_metadata self = ∅ /\
    FileNotFound index_path ∈ out /\ FileNotFound metadata_path ∈ out /\
    (forall Query,
       search no_files self Query = ([NoValidTerm], inr []) \/
       exists term,
         search no_files self Query = ([SearchingFor term; TermNotFound term], inr [])) /\
    (forall pid, show_post_info self pid = ([PostNotFound pid], inr tt)).
Proof.
  destruct (engine_loads_absent_artifacts_as_empty no_files)
    as (out & self & Hinit & Hidx & Hmeta & Hout1 & Hout2 & Hsearch & Hshow).
  exists out, self.
  split_and!; [exact Hinit | exact Hidx | exact Hmeta | | | | ].
  - apply Hout1. reflexivity.
  - apply Hout2. reflexivity.
  - apply Hsearch. reflexivity.
  - apply Hshow. reflexivity.
Defined.

(** C3 as stated fails: for the query [cats] over the three posts, [search]
    returns the list of the two document ids, which is not a list of
    (document id, score) pairs. *)
Lemma search_returns_ids_without_scores :
  search_value store (engine_over store) (str "cats")
    = Some [IdOnly (str "1"); IdOnly (str "2")]
  /\ ~ scored_pairs [IdOnly (str "1"); IdOnly (str "2")].
Proof.
  split; [vm_compute; reflexivity|].
  intros [pairs Hpairs]. destruct pairs as [|p pairs]; discriminate.
Qed.

(** C4 as stated fails: two posts with the same score are ranked in the order
    of the postings list, document 2 before document 1, not by ascending
    document id. *)
Lemma equal_scores_are_not_ranked_by_id :
  outcome (search tied_store (engine_over tied_store) (str "cat"))
    = inr [str_int 2; str_int 1]
  /\ ~ ties_by_ascending_id
        (printed_ranking (printed (search tied_store (engine_over tied_store) (str "cat")))).
Proof.
  split; [vm_compute; reflexivity|].
  intros Hties.
  assert (2 < 1)%Z; [|lia].
  apply (Hties 0%nat 1%nat 2%Z 1%Z 1%Z 1%Z); [lia | | | ]; vm_compute; reflexivity.
Qed.


(** C9 as stated fails: with both artifacts absent the constructor does not
    fail; it gives the engine that empty artifacts give, and a search on it
    answers term-not-found, as over an empty index. *)
Lemma absent_artifacts_do_not_fail_the_load :
  inverted_index_json no_files = None /\ post_metadata_json no_files = None
  /\ ~ load_fails no_files
  /\ outcome (__init__ no_files) = outcome (__init__ empty_tables)
  /\ search no_files (engine_over no_files) (str "cat")
      = ([SearchingFor (str "cat"); TermNotFound (str "cat")], inr [])
  /\ search no_files (engine_over no_files) (str "cat")
      = search empty_tables (engine_over empty_tables) (str "cat").
Proof.
  split_and!; try reflexivity.
  intros [e He]. discriminate.
Qed.
End Examples.

(** ** Further properties of the index builder *)

Import Terms.

Section CounterFacts.
Implicit Types (c : list (pystr * nat)) (t k : pystr) (tokens : list pystr).

Lemma dict_get_set {V} (t k : pystr) (v dflt : V) (d : list (pystr * V)) :
  dict_get t dflt (dict_set k v d) = if decide (k = t) then v else dict_get t dflt d.
Proof.
  induction d as [|[k' v'] d IH]; simpl; [done|].
  destruct (decide (k' = k)) as [->|Hne]; simpl.
  - by destruct (decide (k = t)).
  - rewrite IH. destruct (decide (k' = t)) as [->|]; [|done].
    by rewrite decide_False.
Qed.

Lemma occurrences_cons t x tokens :
  occurrences t (x :: tokens) =
    ((if decide (x = t) then 1 else 0) + occurrences t tokens)%nat.
Proof.
  unfold occurrences. simpl.
  destruct (decide (x = t)) as [->|Hne].
  - by rewrite bool_decide_eq_true_2.
  - by rewrite bool_decide_eq_false_2.
Qed.

Lemma occurrences_pos t tokens : t ∈ tokens <-> (0 < occurrences t tokens)%nat.
Proof.
  induction tokens as [|x tokens IH].
  - split; [by inversion 1 | unfold occurrences; simpl; lia].
  - rewrite occurrences_cons, elem_of_cons.
    destruct (decide (x = t)) as [->|Hne].
    + split; [lia | by left].
    + rewrite IH. simpl. split; [intros [?|?]; [congruence | done] | by right].
Qed.

Lemma occurrences_zero t tokens : t ∉ tokens -> occurrences t tokens = 0%nat.
Proof. rewrite occurrences_pos. lia. Qed.

Lemma occurrences_le_length t tokens : (occurrences t tokens <= List.length tokens)%nat.
Proof.
  induction tokens as [|x tokens IH]; [done|].
  rewrite occurrences_cons. simpl. destruct (decide (x = t)); lia.
Qed.

(** [Counter] gives every token its number of occurrences. *)
Lemma Counter_get t tokens : dict_get t 0%nat (Counter tokens) = occurrences t tokens.
Proof.
  unfold Counter.
  assert (forall c, dict_get t 0%nat
            (fold_left (fun c x => dict_set x (dict_get x 0 c + 1)%nat c) tokens c)
          = (dict_get t 0%nat c + occurrences t tokens)%nat) as Hgen.
  { induction tokens as [|x tokens IH]; intros c; simpl.
    - unfold occurrences. simpl. lia.
    - rewrite IH, dict_get_set, occurrences_cons.
      destruct (decide (x = t)) as [->|]; lia. }
  by rewrite Hgen.
Qed.

Lemma Counter_keys t tokens : t ∈ (Counter tokens).*1 <-> t ∈ tokens.
Proof.
  unfold Counter.
  assert (forall c, t ∈ (fold_left (fun c x => dict_set x (dict_get x 0 c + 1)%nat c)
                           tokens c).*1 <-> t ∈ c.*1 \/ t ∈ tokens) as Hgen.
  { induction tokens as [|x tokens IH]; intros c; simpl.
    - split; [by left | intros [?|H]; [done | by inversion H]].
    - rewrite IH, dict_set_keys, elem_of_cons.
      destruct (bool_decide (x ∈ c.*1)) eqn:Hx.
      + apply bool_decide_eq_true in Hx.
        split; [intros [?|?]; auto | intros [?|[->|?]]; auto].
      + rewrite elem_of_app, list_elem_of_singleton.
        split; [intros [[?|?]|?]; auto | intros [?|[?|?]]; auto]. }
  rewrite Hgen. split; [intros [H|?]; [by inversion H | done] | by right].
Qed.
End CounterFacts.

Section IndexPostFacts.
Context `{U : Unicode}.
Implicit Types (idx : gmap pystr IndexEntry) (st : BuildState)
  (freq : list (pystr * nat)).

(** The loop over the terms of a document, term by term. *)
Lemma add_postings_lookup pid freq idx t :
  NoDup freq.*1 ->
  fold_left (add_posting pid) freq idx !! t =
    if bool_decide (t ∈ freq.*1)
    then Some (posting_added pid (dict_get t 0%nat freq) (entry_of idx t))
    else idx !! t.
Proof.
  revert idx. induction freq as [|[k tf] freq IH]; intros idx Hnd; [done|].
  rewrite fmap_cons in Hnd. apply NoDup_cons in Hnd as [Hk Hnd]. cbn [fst] in Hk.
  cbn [fold_left]. rewrite IH by done. rewrite fmap_cons. cbn [fst].
  unfold entry_of. rewrite !add_posting_lookup. cbn [dict_get].
  destruct (decide (k = t)) as [->|Hne].
  - rewrite (bool_decide_eq_false_2 (t ∈ freq.*1)) by done.
    rewrite (bool_decide_eq_true_2 (t ∈ t :: freq.*1)) by (by left).
    unfold posting_added. by destruct (bool_decide _).
  - destruct (bool_decide (t ∈ freq.*1)) eqn:Hin.
    + apply bool_decide_eq_true in Hin.
      rewrite bool_decide_eq_true_2; [done | by right].
    + apply bool_decide_eq_false in Hin.
      rewrite bool_decide_eq_false_2; [done|].
      intros [?|?]%elem_of_cons; [congruence | done].
Qed.

(** One round of the loop over the posts, term by term. *)
Lemma index_post_lookup st post t :
  bs_index (index_post st post) !! t =
    if mentions t post
    then Some (posting_added (pid_of post) (occurrences t (tokens_of post))
                 (entry_of (bs_index st) t))
    else bs_index st !! t.
Proof.
  unfold mentions, tokens_of.
  destruct (index_post_cases st post) as [[Hno ->]|[_ (freq & meta & -> & ->)]].
  - unfold has_tokens in Hno.
    destruct (tokenize_text (clean_text post)); [|by destruct Hno].
    rewrite bool_decide_eq_false_2; [done | by inversion 1].
  - simpl. rewrite add_postings_lookup by apply Counter_NoDup.
    rewrite Counter_get.
    destruct (bool_decide (t ∈ (Counter _).*1)) eqn:Hin.
    + apply bool_decide_eq_true in Hin. rewrite Counter_keys in Hin.
      by rewrite bool_decide_eq_true_2.
    + apply bool_decide_eq_false in Hin. rewrite Counter_keys in Hin.
      by rewrite bool_decide_eq_false_2.
Qed.

Lemma index_post_entry st post t :
  entry_of (bs_index (index_post st post)) t =
    if mentions t post
    then posting_added (pid_of post) (occurrences t (tokens_of post))
           (entry_of (bs_index st) t)
    else entry_of (bs_index st) t.
Proof.
  unfold entry_of at 1. rewrite index_post_lookup.
  by destruct (mentions t post).
Qed.

Lemma posting_added_tf_total pid tf e :
  tf_total (posting_added pid tf e) = (tf_total e + tf)%nat.
Proof. unfold posting_added. by destruct (bool_decide _). Qed.

Lemma posting_added_post_ids pid tf e x :
  x ∈ post_ids (posting_added pid tf e) <-> x ∈ post_ids e \/ x = pid.
Proof.
  unfold posting_added. destruct (bool_decide (pid ∈ post_ids e)) eqn:Hin; simpl.
  - apply bool_decide_eq_true in Hin.
    split; [by left | intros [?| ->]; done].
  - rewrite elem_of_app, list_elem_of_singleton. done.
Qed.

(** The loop over the posts: totals, postings and the terms met. *)
Lemma index_posts_tf_total posts st t :
  tf_total (entry_of (bs_index (fold_left index_post posts st)) t) =
    (tf_total (entry_of (bs_index st) t)
     + sum_list_with (fun p => occurrences t (tokens_of p)) posts)%nat.
Proof.
  revert st. induction posts as [|p posts IH]; intros st; simpl; [lia|].
  rewrite IH, index_post_entry. unfold mentions.
  destruct (bool_decide (t ∈ tokens_of p)) eqn:Hin.
  - rewrite posting_added_tf_total. lia.
  - apply bool_decide_eq_false in Hin. rewrite (occurrences_zero _ _ Hin). lia.
Qed.

Lemma index_posts_post_ids posts st t pid :
  pid ∈ post_ids (entry_of (bs_index (fold_left index_post posts st)) t) <->
  pid ∈ post_ids (entry_of (bs_index st) t)
  \/ exists p, p ∈ posts /\ pid_of p = pid /\ t ∈ tokens_of p.
Proof.
  revert st. induction posts as [|p posts IH]; intros st; simpl.
  - split; [by left | intros [?|(p & Hp & _)]; [done | by inversion Hp]].
  - rewrite IH, index_post_entry. unfold mentions.
    destruct (bool_decide (t ∈ tokens_of p)) eqn:Hin.
    + apply bool_decide_eq_true in Hin. rewrite posting_added_post_ids.
      split.
      * intros [[?| ->]|(q & Hq & ? & ?)]; [by left | right; exists p | right; exists q];
          split_and!; try done; [by left | by right].
      * intros [?|(q & [->|Hq]%elem_of_cons & <- & ?)];
          [by left; left | by left; right | right; by exists q].
    + apply bool_decide_eq_false in Hin. split.
      * intros [?|(q & Hq & ? & ?)]; [by left | right; exists q].
        split_and!; [by right | done..].
      * intros [?|(q & [->|Hq]%elem_of_cons & <- & ?)];
          [by left | done | right; by exists q].
Qed.

Lemma index_posts_lookup_None posts st t :
  bs_index (fold_left index_post posts st) !! t = None <->
  bs_index st !! t = None /\ forall p, p ∈ posts -> t ∉ tokens_of p.
Proof.
  revert st. induction posts as [|p posts IH]; intros st; simpl.
  - split; [intros ?; split; [done | by inversion 1] | by intros [? _]].
  - rewrite IH, index_post_lookup. unfold mentions.
    destruct (bool_decide (t ∈ tokens_of p)) eqn:Hin.
    + apply bool_decide_eq_true in Hin. split; [by intros [? _]|].
      intros [_ Hall]. exfalso. apply (Hall p); [by left | done].
    + apply bool_decide_eq_false in Hin. split.
      * intros [? Hall]. split; [done|]. intros q [->|Hq]%elem_of_cons; auto.
      * intros [? Hall]. split; [done|]. intros q Hq. apply Hall. by right.
Qed.

(** What a non-empty build writes. *)
Lemma build_writes (fs : FS) (posts : list Post) :
  posts <> [] ->
  build_inverted_index fs posts =
    {| inverted_index_json := Some (bs_index (index_posts fs posts));
       post_metadata_json := Some (bs_metadata (index_posts fs posts));
       json_posts := bs_files (index_posts fs posts) |}.
Proof. by destruct posts. Qed.
End IndexPostFacts.

Section MetadataFacts.
Context `{U : Unicode}.
Implicit Types (st : BuildState) (freq : list (pystr * nat)).

Lemma dict_get_elem {V} (k : pystr) (v dflt : V) (d : list (pystr * V)) :
  NoDup d.*1 -> (k, v) ∈ d -> dict_get k dflt d = v.
Proof.
  induction d as [|[k' v'] d IH]; [by inversion 2|].
  rewrite fmap_cons. intros [Hk Hnd]%NoDup_cons [[= -> ->]|Hin]%elem_of_cons; simpl.
  - by rewrite decide_True.
  - destruct (decide (k' = k)) as [->|]; [|by apply IH].
    destruct Hk. apply list_elem_of_fmap. by exists (k, v).
Qed.

Lemma sum_values_eq freq : sum_values freq = sum_list freq.*2.
Proof.
  unfold sum_values.
  assert (forall l n, fold_left Nat.add l n = (n + sum_list l)%nat) as Hgen.
  { induction l as [|x l IH]; intros n; simpl; [lia|]. rewrite IH. lia. }
  rewrite Hgen. done.
Qed.

Lemma sum_values_dict_set k freq :
  sum_values (dict_set k (dict_get k 0 freq + 1)%nat freq) = (sum_values freq + 1)%nat.
Proof.
  rewrite !sum_values_eq.
  assert (forall v, (sum_list (dict_set k v freq).*2 + dict_get k 0 freq
                     = sum_list freq.*2 + v)%nat) as Hgen.
  { intros v. induction freq as [|[k' n] freq IH]; [simpl; lia|].
    cbn [dict_set dict_get]. destruct (decide (k' = k)) as [->|].
    - rewrite !fmap_cons. simpl. lia.
    - rewrite !fmap_cons. cbn [snd sum_list sum_list_with]. lia. }
  specialize (Hgen (dict_get k 0 freq + 1)%nat). lia.
Qed.

(** The counts of a [Counter] add up to the number of tokens. *)
Lemma Counter_sum tokens : sum_values (Counter tokens) = List.length tokens.
Proof.
  unfold Counter.
  assert (forall c, sum_values
            (fold_left (fun c x => dict_set x (dict_get x 0 c + 1)%nat c) tokens c)
          = (sum_values c + List.length tokens)%nat) as Hgen.
  { induction tokens as [|x tokens IH]; intros c; simpl; [lia|].
    rewrite IH, sum_values_dict_set. lia. }
  by rewrite Hgen.
Qed.

Lemma max_from_elem (best : pystr * nat) rest : max_from best rest ∈ best :: rest.
Proof.
  revert best. induction rest as [|x rest IH]; intros best; simpl; [by left|].
  destruct (snd best <? snd x)%nat.
  - right. apply IH.
  - pose proof (IH best) as [Heq|Hin]%elem_of_cons; [rewrite Heq; by left|].
    right. by right.
Qed.

Lemma max_from_ge (best : pystr * nat) rest x :
  x ∈ best :: rest -> (snd x <= snd (max_from best rest))%nat.
Proof.
  revert best x. induction rest as [|y rest IH]; intros best x Hx; simpl.
  - apply list_elem_of_singleton in Hx as ->. lia.
  - destruct (Nat.ltb_spec (snd best) (snd y)) as [Hlt|Hge].
    + apply elem_of_cons in Hx as [->|Hx].
      * etransitivity; [|apply (IH y y); by left]. lia.
      * by apply IH.
    + apply elem_of_cons in Hx as [->|[->|Hx]%elem_of_cons].
      * apply IH. by left.
      * etransitivity; [exact Hge|]. apply IH. by left.
      * apply IH. by right.
Qed.

(** The metadata that one round of the loop records for a post with tokens:
    the number of its tokens, and a term of greatest frequency. *)
Lemma index_post_own st post :
  has_tokens post ->
  bs_files (index_post st post) !! pid_of post = Some (Counter (tokens_of post)) /\
  exists m, bs_metadata (index_post st post) !! pid_of post = Some m /\
    meta_length m = List.length (tokens_of post) /\
    max_tf_term m ∈ tokens_of post /\
    max_tf m = occurrences (max_tf_term m) (tokens_of post) /\
    (forall t, (occurrences t (tokens_of post) <= max_tf m)%nat) /\
    meta_likes m = likes post /\ comments m = comment_count post /\
    date m = str_date <$> post_date_only post.
Proof.
  intros Htok. unfold index_post, pid_of, tokens_of.
  unfold has_tokens in Htok.
  destruct (tokenize_text (clean_text post)) as [|t0 ts] eqn:Htokens; [done|].
  pose proof (Counter_nonempty (t0 :: ts)) as Hne.
  pose proof (Counter_NoDup (t0 :: ts)) as Hnd.
  pose proof (Counter_sum (t0 :: ts)) as Hsum.
  destruct (Counter (t0 :: ts)) as [|first others] eqn:Hc; [by destruct Hne|].
  simpl. rewrite !lookup_insert_eq. split; [done|].
  eexists. split; [reflexivity|]. simpl.
  pose proof (max_from_elem first others) as Hbest.
  destruct (max_from first others) as [k n] eqn:Hmax. simpl.
  assert (n = occurrences k (t0 :: ts)) as Hn.
  { rewrite <- Counter_get, Hc. symmetry. by apply dict_get_elem. }
  split_and!; [done | | done | | done..].
  - apply Counter_keys. rewrite Hc. apply list_elem_of_fmap. by exists (k, n).
  - intros t. destruct (decide (t ∈ t0 :: ts)) as [Hin|Hout].
    + apply Counter_keys in Hin. rewrite Hc in Hin.
      apply list_elem_of_fmap in Hin as ([t' c] & -> & Hin). simpl.
      rewrite <- Counter_get, Hc, (dict_get_elem _ _ _ _ Hnd Hin).
      pose proof (max_from_ge first others (t', c) Hin) as Hle.
      rewrite Hmax in Hle. done.
    + rewrite occurrences_zero by done. lia.
Qed.

(** Rounds for posts of other ids leave the file and the metadata of a
    document alone. *)
Lemma index_posts_untouched posts st pid :
  (forall p, p ∈ posts -> has_tokens p -> pid_of p <> pid) ->
  bs_files (fold_left index_post posts st) !! pid = bs_files st !! pid /\
  bs_metadata (fold_left index_post posts st) !! pid = bs_metadata st !! pid.
Proof.
  revert st. induction posts as [|p posts IH]; intros st Hother; simpl; [done|].
  destruct (IH (index_post st p)) as [-> ->]; [intros q Hq; apply Hother; by right|].
  destruct (index_post_cases st p) as [[_ ->]|[Htok (freq & meta & _ & ->)]]; [done|].
  simpl. assert (pid_of p <> pid) by (apply Hother; [by left | done]).
  by rewrite !lookup_insert_ne.
Qed.

Lemma index_posts_own posts st post :
  NoDup (pid_of <$> posts) -> post ∈ posts -> has_tokens post ->
  bs_files (fold_left index_post posts st) !! pid_of post
    = Some (Counter (tokens_of post)) /\
  exists m, bs_metadata (fold_left index_post posts st) !! pid_of post = Some m /\
    meta_length m = List.length (tokens_of post) /\
    max_tf_term m ∈ tokens_of post /\
    max_tf m = occurrences (max_tf_term m) (tokens_of post) /\
    (forall t, (occurrences t (tokens_of post) <= max_tf m)%nat) /\
    meta_likes m = likes post /\ comments m = comment_count post /\
    date m = str_date <$> post_date_only post.
Proof.
  revert st. induction posts as [|p posts IH]; intros st Hnd Hin Htok; [by inversion Hin|].
  rewrite fmap_cons in Hnd. apply NoDup_cons in Hnd as [Hp Hnd].
  simpl. apply elem_of_cons in Hin as [->|Hin]; [|by apply IH].
  destruct (index_posts_untouched posts (index_post st p) (pid_of p)) as [-> ->].
  - intros q Hq _ Heq. apply Hp. rewrite <- Heq. by apply list_elem_of_fmap_2.
  - by apply index_post_own.
Qed.

(** The tables of the loop depend on the posts only, not on the files found. *)
Lemma index_posts_tables posts st st' :
  bs_index st = bs_index st' -> bs_metadata st = bs_metadata st' ->
  bs_index (fold_left index_post posts st) = bs_index (fold_left index_post posts st')
  /\ bs_metadata (fold_left index_post posts st)
     = bs_metadata (fold_left index_post posts st').
Proof.
  revert st st'. induction posts as [|p posts IH]; intros st st' Hidx Hmeta; [done|].
  simpl. apply IH.
  - destruct (index_post_cases st p) as [[Hno ->]|[Htok (freq & meta & -> & ->)]];
      destruct (index_post_cases st' p) as [[Hno' ->]|[Htok' (freq' & meta' & -> & ->)]];
      try done. simpl. by rewrite Hidx.
  - unfold index_post.
    destruct (tokenize_text (clean_text p)); [done|].
    destruct (Counter _); [done|]. simpl. by rewrite Hmeta.
Qed.
End MetadataFacts.

Section BuilderProperties.
Context `{U : Unicode}.

(** X1: the postings table of a build holds exactly the terms that occur in
    some post, and the postings of a term are exactly the ids of the posts in
    which it occurs. *)
Theorem index_holds_the_posts_of_each_term (fs : FS) (posts : list Post)
    (idx : gmap pystr IndexEntry) :
  posts <> [] ->
  inverted_index_json (build_inverted_index fs posts) = Some idx ->
  (forall term, is_Some (idx !! term) <-> exists p, p ∈ posts /\ term ∈ tokens_of p) /\
  (forall term e pid, idx !! term = Some e ->
     (pid ∈ post_ids e <->
      exists p, p ∈ posts /\ pid_of p = pid /\ term ∈ tokens_of p)).
Proof.
  intros Hne. rewrite build_writes by done. simpl. intros [= <-]. split.
  - intros term.
    pose proof (index_posts_lookup_None posts
      {| bs_index := ∅; bs_metadata := ∅; bs_files := json_posts fs |} term) as Hnone.
    simpl in Hnone. rewrite lookup_empty in Hnone. fold (index_posts fs posts) in Hnone.
    split.
    + intros Hsome.
      destruct (decide (Exists (fun p => term ∈ tokens_of p) posts)) as [Hex|Hnex].
      * apply Exists_exists in Hex as (p & Hp & Ht). by exists p.
      * exfalso. destruct Hsome as [e He]. rewrite (proj2 Hnone) in He; [done|].
        split; [done|]. intros p Hp Ht. apply Hnex, Exists_exists. by exists p.
    + intros (p & Hp & Ht). apply not_eq_None_Some. intros Hlook.
      apply Hnone in Hlook as [_ Hall]. by apply (Hall p).
  - intros term e pid He.
    pose proof (index_posts_post_ids posts
      {| bs_index := ∅; bs_metadata := ∅; bs_files := json_posts fs |} term pid) as Hin.
    fold (index_posts fs posts) in Hin. unfold entry_of in Hin.
    rewrite He in Hin. simpl in Hin. rewrite lookup_empty in Hin. simpl in Hin.
    rewrite Hin. split; [intros [H|?]; [by inversion H | done] | by right].
Qed.

(** X2: [tf_total] of a term is the number of its occurrences in all the rows
    of the corpus, a row that repeats a document id counted like any other. *)
Theorem tf_total_counts_every_row (fs : FS) (posts : list Post)
    (idx : gmap pystr IndexEntry) (term : pystr) (e : IndexEntry) :
  posts <> [] ->
  inverted_index_json (build_inverted_index fs posts) = Some idx ->
  idx !! term = Some e ->
  tf_total e = sum_list_with (fun p => occurrences term (tokens_of p)) posts.
Proof.
  intros Hne. rewrite build_writes by done. simpl. intros [= <-] He.
  pose proof (index_posts_tf_total posts
    {| bs_index := ∅; bs_metadata := ∅; bs_files := json_posts fs |} term) as Htf.
  fold (index_posts fs posts) in Htf. unfold entry_of in Htf.
  rewrite He in Htf. simpl in Htf. by rewrite lookup_empty in Htf.
Qed.

(** X3: [df] of a term is the number of distinct document ids among the posts
    in which the term occurs. *)
Theorem df_counts_distinct_ids (fs : FS) (posts : list Post)
    (idx : gmap pystr IndexEntry) (term : pystr) (e : IndexEntry) :
  posts <> [] ->
  inverted_index_json (build_inverted_index fs posts) = Some idx ->
  idx !! term = Some e ->
  df e = size (list_to_set (pid_of <$> List.filter (mentions term) posts) : gset pystr).
Proof.
  intros Hne. rewrite build_writes by done. simpl. intros [= <-] He.
  assert (index_ok (fun _ => True) (bs_index (index_posts fs posts))) as Hok.
  { apply index_posts_ok; [apply index_ok_empty | done]. }
  destruct (Hok _ _ He) as (-> & Hnd & _).
  rewrite <- (size_list_to_set (C := gset pystr) (post_ids e)) by done.
  f_equal. apply set_eq. intros pid. rewrite !elem_of_list_to_set.
  pose proof (index_posts_post_ids posts
    {| bs_index := ∅; bs_metadata := ∅; bs_files := json_posts fs |} term pid) as Hin.
  fold (index_posts fs posts) in Hin. unfold entry_of in Hin.
  rewrite He in Hin. simpl in Hin. rewrite lookup_empty in Hin. simpl in Hin.
  rewrite Hin, list_elem_of_fmap. split.
  - intros [H|(p & Hp & Hpid & Ht)]; [by inversion H|].
    exists p. split; [done|]. apply list_elem_of_In, filter_In.
    split; [by apply list_elem_of_In | by apply bool_decide_eq_true].
  - intros (p & -> & Hp). right. apply list_elem_of_In, filter_In in Hp as [Hp Ht].
    exists p. split_and!; [by apply list_elem_of_In | done |].
    by apply bool_decide_eq_true in Ht.
Qed.

(** X4: over a corpus whose document ids are pairwise distinct, summing the
    frequencies that the files of a term's postings record gives back the
    term's [tf_total]. *)
Theorem files_sum_to_tf_total (fs : FS) (posts : list Post)
    (idx : gmap pystr IndexEntry) (term : pystr) (e : IndexEntry) :
  NoDup (pid_of <$> posts) -> posts <> [] ->
  inverted_index_json (build_inverted_index fs posts) = Some idx ->
  idx !! term = Some e ->
  tf_total e = postings_tf (json_posts (build_inverted_index fs posts)) term e.
Proof.
  intros Hnd Hne. rewrite build_writes by done. simpl. intros [= <-] He.
  by apply round_trip_of_distinct_ids.
Qed.

(** X5: over a corpus whose document ids are pairwise distinct, the file of a
    post records, for every term, the number of its occurrences among the
    tokens of the post. *)
Theorem file_records_the_frequencies (fs : FS) (posts : list Post) (post : Post)
    (t : pystr) :
  NoDup (pid_of <$> posts) -> post ∈ posts -> has_tokens post ->
  file_tf (build_inverted_index fs posts) (pid_of post) t
    = occurrences t (tokens_of post).
Proof.
  intros Hnd Hin Htok.
  assert (posts <> []) as Hne by (intros ->; by inversion Hin).
  rewrite build_writes by done. unfold file_tf. simpl.
  destruct (index_posts_own posts
    {| bs_index := ∅; bs_metadata := ∅; bs_files := json_posts fs |} post Hnd Hin Htok)
    as [Hfile _].
  fold (index_posts fs posts) in Hfile. rewrite Hfile. simpl. apply Counter_get.
Qed.

(** X6: over a corpus whose document ids are pairwise distinct, every
    document of a term's postings has a file in which the frequency of the
    term is positive. *)
Theorem postings_have_positive_frequency (fs : FS) (posts : list Post)
    (idx : gmap pystr IndexEntry) (term pid : pystr) (e : IndexEntry) :
  NoDup (pid_of <$> posts) -> posts <> [] ->
  inverted_index_json (build_inverted_index fs posts) = Some idx ->
  idx !! term = Some e -> pid ∈ post_ids e ->
  (0 < file_tf (build_inverted_index fs posts) pid term)%nat.
Proof.
  intros Hnd Hne Hidx He Hpid.
  assert (exists p, p ∈ posts /\ pid_of p = pid /\ term ∈ tokens_of p)
    as (p & Hp & <- & Ht).
  { revert Hidx. rewrite build_writes by done. simpl. intros [= <-].
    pose proof (index_posts_post_ids posts
      {| bs_index := ∅; bs_metadata := ∅; bs_files := json_posts fs |} term pid) as Hin.
    fold (index_posts fs posts) in Hin. unfold entry_of in Hin.
    rewrite He in Hin. simpl in Hin. rewrite lookup_empty in Hin. simpl in Hin.
    apply Hin in Hpid as [H|?]; [by inversion H | done]. }
  assert (has_tokens p) as Htok.
  { unfold has_tokens. fold (tokens_of p). intros Hnil. rewrite Hnil in Ht.
    by inversion Ht. }
  assert (posts <> []) as _ by done.
  pose proof (index_posts_own posts
    {| bs_index := ∅; bs_metadata := ∅; bs_files := json_posts fs |} p Hnd Hp Htok)
    as [Hfile _].
  fold (index_posts fs posts) in Hfile.
  rewrite build_writes by done. unfold file_tf. simpl. rewrite Hfile. simpl.
  rewrite Counter_get. by apply occurrences_pos.
Qed.

(** X7: over a corpus whose document ids are pairwise distinct, the metadata
    of a post with tokens gives the number of its tokens as [length], a term
    of greatest frequency as [max_tf_term] with that frequency as [max_tf],
    and the likes, comment count and date of the row. *)
Theorem metadata_describes_the_post (fs : FS) (posts : list Post) (post : Post) :
  NoDup (pid_of <$> posts) -> post ∈ posts -> has_tokens post ->
  exists meta m,
    post_metadata_json (build_inverted_index fs posts) = Some meta /\
    meta !! pid_of post = Some m /\
    meta_length m = List.length (tokens_of post) /\
    max_tf_term m ∈ tokens_of post /\
    max_tf m = occurrences (max_tf_term m) (tokens_of post) /\
    (forall t, (occurrences t (tokens_of post) <= max_tf m)%nat) /\
    meta_likes m = likes post /\ comments m = comment_count post /\
    date m = str_date <$> post_date_only post.
Proof.
  intros Hnd Hin Htok.
  assert (posts <> []) as Hne by (intros ->; by inversion Hin).
  rewrite build_writes by done. simpl.
  destruct (index_posts_own posts
    {| bs_index := ∅; bs_metadata := ∅; bs_files := json_posts fs |} post Hnd Hin Htok)
    as [_ (m & Hm & Hrest)].
  exists (bs_metadata (index_posts fs posts)), m. split; [done|]. split; [exact Hm|].
  exact Hrest.
Qed.

(** X8: the two tables that a build writes depend on the corpus only: nothing
    of the tables or files found before the build is left in them. *)
Theorem rebuild_forgets_the_old_tables (fs fs' : FS) (posts : list Post) :
  posts <> [] ->
  inverted_index_json (build_inverted_index fs posts)
    = inverted_index_json (build_inverted_index fs' posts) /\
  post_metadata_json (build_inverted_index fs posts)
    = post_metadata_json (build_inverted_index fs' posts).
Proof.
  intros Hne. rewrite !build_writes by done. simpl.
  destruct (index_posts_tables posts
    {| bs_index := ∅; bs_metadata := ∅; bs_files := json_posts fs |}
    {| bs_index := ∅; bs_metadata := ∅; bs_files := json_posts fs' |}) as [Hidx Hmeta];
    [done..|].
  unfold index_posts. by rewrite Hidx, Hmeta.
Qed.

(** X9: a build leaves in place, unchanged, the file of every document id
    that no post with tokens of the corpus carries: the files of documents
    that left the corpus are not removed. *)
Theorem build_keeps_the_files_of_other_documents (fs : FS) (posts : list Post)
    (pid : pystr) :
  (forall p, p ∈ posts -> has_tokens p -> pid_of p <> pid) ->
  json_posts (build_inverted_index fs posts) !! pid = json_posts fs !! pid.
Proof.
  intros Hother. destruct posts as [|p0 posts0]; [done|].
  rewrite build_writes by done.
  by destruct (index_posts_untouched (p0 :: posts0)
    {| bs_index := ∅; bs_metadata := ∅; bs_files := json_posts fs |} pid Hother)
    as [? _].
Qed.
End BuilderProperties.

(** ** Further properties of the search *)

Section ScoreLoopFacts.
Context `{F : PyFloat}.
Implicit Types (fs : FS) (scores : list (pystr * float)).

Lemma score_posts_cons_file fs dbg term idf PID rest scores freqs :
  json_posts fs !! PID = Some freqs ->
  score_posts fs dbg term idf (PID :: rest) scores =
    let tf := dict_get term 0%nat freqs in
    let tfidf := fmul (of_int tf) idf in
    let '(out, r) := score_posts fs dbg term idf rest
      (dict_set PID (fadd (dict_get PID (of_int 0) scores) tfidf) scores) in
    ((if dbg then [DebugScore PID tf idf tfidf] else []) ++ out, r).
Proof.
  intros Hfile. cbn [score_posts]. rewrite Hfile. cbv zeta.
  destruct dbg; simpl; by destruct (score_posts _ _ _ _ _ _).
Qed.

Lemma score_posts_cons_missing fs dbg term idf PID rest scores :
  json_posts fs !! PID = None ->
  score_posts fs dbg term idf (PID :: rest) scores =
    let '(out, r) := score_posts fs dbg term idf rest scores in
    (JsonMissing PID :: out, r).
Proof.
  intros Hfile. cbn [score_posts]. rewrite Hfile. simpl.
  by destruct (score_posts _ _ _ _ _ _).
Qed.

(** The loop over the postings: which documents get a score, and which are
    reported missing. *)
Lemma score_posts_spec fs dbg term idf post_list scores out scores' :
  score_posts fs dbg term idf post_list scores = (out, inr scores') ->
  (NoDup scores.*1 -> NoDup scores'.*1) /\
  (forall pid, pid ∈ scores'.*1 <->
     pid ∈ scores.*1 \/ (pid ∈ post_list /\ is_Some (json_posts fs !! pid))) /\
  (forall pid, JsonMissing pid ∈ out <->
     pid ∈ post_list /\ json_posts fs !! pid = None).
Proof.
  revert scores out. induction post_list as [|PID rest IH]; intros scores out Hrun.
  - injection Hrun as <- <-. split_and!; [done | |].
    + intros pid. split; [by left | intros [?|[H _]]; [done | by inversion H]].
    + intros pid. split; [by inversion 1 | intros [H _]; by inversion H].
  - destruct (json_posts fs !! PID) as [freqs|] eqn:Hfile.
    + rewrite (score_posts_cons_file _ _ _ _ _ _ _ _ Hfile) in Hrun. cbv zeta in Hrun.
      destruct (score_posts fs dbg term idf rest _) as [out1 r] eqn:Hrest.
      injection Hrun as <- ->.
      destruct (IH _ _ Hrest) as (Hnd & Hkeys & Hmiss). split_and!.
      * intros Hs. by apply Hnd, dict_set_NoDup.
      * intros pid. rewrite Hkeys, dict_set_keys, elem_of_cons.
        destruct (bool_decide (PID ∈ scores.*1)) eqn:Hin.
        -- apply bool_decide_eq_true in Hin. split.
           ++ intros [?|[? ?]]; [by left | right; split; [by right | done]].
           ++ intros [?|[[->|?] ?]]; [by left | by left | right; done].
        -- rewrite elem_of_app, list_elem_of_singleton. split.
           ++ intros [[?| ->]|[? ?]];
                [by left | right; split; [by left | by rewrite Hfile]
                | right; split; [by right | done]].
           ++ intros [?|[[->|?] ?]]; [by left; left | by left; right | right; done].
      * intros pid. rewrite elem_of_app, Hmiss, elem_of_cons. split.
        -- intros [Hd|[? ?]]; [|split; [by right | done]].
           destruct dbg; [|by inversion Hd].
           apply list_elem_of_singleton in Hd. discriminate.
        -- intros [[->|?] Hnone]; [congruence | right; done].
    + rewrite (score_posts_cons_missing _ _ _ _ _ _ _ Hfile) in Hrun.
      destruct (score_posts fs dbg term idf rest scores) as [out1 r] eqn:Hrest.
      injection Hrun as <- ->.
      destruct (IH _ _ Hrest) as (Hnd & Hkeys & Hmiss). split_and!.
      * done.
      * intros pid. rewrite Hkeys, elem_of_cons. split.
        -- intros [?|[? ?]]; [by left | right; split; [by right | done]].
        -- intros [?|[[->|?] Hsome]]; [by left | | right; done].
           rewrite Hfile in Hsome. by destruct Hsome.
      * intros pid. rewrite !elem_of_cons, Hmiss. split.
        -- intros [[= ->]|[? ?]]; [split; [by left | done] | split; [by right | done]].
        -- intros [[->|?] ?]; [by left | right; done].
Qed.

(** The debug mode changes what the loop prints, not what it computes. *)
Lemma score_posts_debug fs term idf post_list scores :
  outcome (score_posts fs true term idf post_list scores)
    = outcome (score_posts fs false term idf post_list scores) /\
  List.filter (fun ev => negb (is_debug ev))
      (printed (score_posts fs true term idf post_list scores))
    = printed (score_posts fs false term idf post_list scores) /\
  List.filter (fun ev => negb (is_debug ev))
      (printed (score_posts fs false term idf post_list scores))
    = printed (score_posts fs false term idf post_list scores).
Proof.
  revert scores. induction post_list as [|PID rest IH]; intros scores; [done|].
  destruct (json_posts fs !! PID) as [freqs|] eqn:Hfile.
  - rewrite !(score_posts_cons_file _ _ _ _ _ _ _ _ Hfile). cbv zeta.
    match goal with |- context [score_posts fs true term idf rest ?s] =>
      destruct (IH s) as (Ho & Hp & Hq);
      destruct (score_posts fs true term idf rest s) as [out1 r1];
      destruct (score_posts fs false term idf rest s) as [out2 r2]
    end.
    simpl in *. done.
  - rewrite !(score_posts_cons_missing _ _ _ _ _ _ _ Hfile).
    destruct (IH scores) as (Ho & Hp & Hq).
    destruct (score_posts fs true term idf rest scores) as [out1 r1].
    destruct (score_posts fs false term idf rest scores) as [out2 r2].
    simpl in *. by rewrite Hp, Hq.
Qed.
End ScoreLoopFacts.

Section SearchProperties.
Context `{U : Unicode} `{L : Nltk} `{F : PyFloat}.
Implicit Types (fs : FS) (self : SearchEngine) (scores : list (pystr * float)).

(** The ids that [search] returns, against the scored documents. *)
Lemma top_20_ids scores :
  let ids := List.map fst (take 20 (sorted_desc scores)) in
  (forall pid, pid ∈ ids -> pid ∈ scores.*1) /\
  ((List.length scores <= 20)%nat -> forall pid, pid ∈ scores.*1 -> pid ∈ ids) /\
  (NoDup scores.*1 -> NoDup ids).
Proof.
  intros ids. unfold ids.
  change (List.map fst (take 20 (sorted_desc scores)))
    with (fst <$> take 20 (sorted_desc scores)).
  assert ((sorted_desc scores).*1 ≡ₚ scores.*1) as Hperm
    by (apply fmap_Permutation, sorted_desc_perm).
  rewrite fmap_take. split_and!.
  - intros pid Hpid. rewrite <- Hperm.
    rewrite <- (take_drop 20 (sorted_desc scores).*1). apply elem_of_app. by left.
  - intros Hlen pid Hpid. rewrite take_ge.
    + by rewrite Hperm.
    + rewrite length_fmap, sorted_desc_length. done.
  - intros Hnd. rewrite <- Hperm in Hnd.
    rewrite <- (take_drop 20 (sorted_desc scores).*1) in Hnd.
    by apply NoDup_app in Hnd as (? & _ & _).
Qed.

(** [search] on a term of the postings table, with what the loop over the
    postings gives. *)
Lemma search_found_spec fs self Query term rest e :
  preprocess_query Query = term :: rest ->
  inverted_index self !! term = Some e ->
  exists out scores,
    search fs self Query =
      (SearchingFor term :: out ++ TopMatchingPosts ::
         List.map (fun p => PostScore (fst p) (snd p)) (take 20 (sorted_desc scores)),
       inr (List.map fst (take 20 (sorted_desc scores)))) /\
    NoDup scores.*1 /\
    (forall pid, pid ∈ scores.*1 <->
       pid ∈ post_ids e /\ is_Some (json_posts fs !! pid)) /\
    (forall pid, JsonMissing pid ∈ out <->
       pid ∈ post_ids e /\ json_posts fs !! pid = None).
Proof.
  intros Hq He.
  destruct (scores_of_returns fs self term e He) as (out & scores & Hs).
  exists out, scores. split; [exact (search_found _ _ _ _ _ _ _ _ Hq He Hs)|].
  rewrite (scores_of_eq _ _ _ _ He) in Hs.
  destruct (score_posts_spec _ _ _ _ _ _ _ _ Hs) as (Hnd & Hkeys & Hmiss).
  split_and!; [apply Hnd; constructor | | done].
  intros pid. rewrite Hkeys. split; [intros [H|?]; [by inversion H | done] | by right].
Qed.

(** X10: the list that [search] returns holds no document id twice, even
    over a postings list that does; every id in it is in the postings of the
    first term of the query and has its file. *)
Theorem search_returns_each_document_once fs self Query (ids : list pystr) :
  outcome (search fs self Query) = inr ids ->
  NoDup ids /\
  forall pid, pid ∈ ids ->
    exists term rest e,
      preprocess_query Query = term :: rest /\
      inverted_index self !! term = Some e /\
      pid ∈ post_ids e /\ is_Some (json_posts fs !! pid).
Proof.
  destruct (preprocess_query Query) as [|term rest] eqn:Hq.
  - rewrite search_no_term by done. simpl. intros [= <-].
    split; [constructor | by inversion 1].
  - destruct (inverted_index self !! term) as [e|] eqn:He.
    + destruct (search_found_spec fs self Query term rest e Hq He)
        as (out & scores & -> & Hnd & Hkeys & _).
      simpl. intros [= <-].
      destruct (top_20_ids scores) as (Hsub & _ & Hnodup).
      split; [by apply Hnodup|].
      intros pid Hpid. exists term, rest, e. split_and!; [done | done | |];
        by apply Hkeys, Hsub.
    + rewrite (search_not_found _ _ _ _ _ Hq He). simpl. intros [= <-].
      split; [constructor | by inversion 1].
Qed.

(** X11: a document of the postings whose file is missing is reported by the
    missing-file message and left out, and no other document is reported;
    the search goes on, and returns every document of the postings that has
    its file when the postings hold at most 20 documents. *)
Theorem search_skips_documents_without_file fs self Query term rest e :
  preprocess_query Query = term :: rest ->
  inverted_index self !! term = Some e ->
  exists ids,
    outcome (search fs self Query) = inr ids /\
    (forall pid, JsonMissing pid ∈ printed (search fs self Query) <->
       pid ∈ post_ids e /\ json_posts fs !! pid = None) /\
    (forall pid, pid ∈ ids -> is_Some (json_posts fs !! pid)) /\
    ((List.length (post_ids e) <= 20)%nat ->
     forall pid, pid ∈ post_ids e -> is_Some (json_posts fs !! pid) -> pid ∈ ids).
Proof.
  intros Hq He.
  destruct (search_found_spec fs self Query term rest e Hq He)
    as (out & scores & -> & Hnd & Hkeys & Hmiss).
  destruct (top_20_ids scores) as (Hsub & Hall & _).
  eexists. split; [reflexivity|]. split_and!.
  - intros pid. unfold printed. simpl.
    rewrite elem_of_cons, elem_of_app, elem_of_cons, Hmiss. split.
    + intros [?|[?|[?|Hin]]]; [done | done | done |].
      apply list_elem_of_fmap in Hin as (p & ? & _). done.
    + intros ?. right. by left.
  - intros pid Hpid. by apply Hkeys, Hsub.
  - intros Hlen pid Hpid Hfile. apply Hall; [|by apply Hkeys].
    assert (scores.*1 ⊆+ post_ids e) as Hsubm.
    { apply NoDup_submseteq; [done|]. intros x Hx. by apply Hkeys in Hx as [? _]. }
    apply submseteq_length in Hsubm. rewrite length_fmap in Hsubm. lia.
Qed.

(** X12: the debug mode of the engine changes only the messages: [search]
    returns the same list, and prints the same messages once the debug lines
    are taken out. *)
Theorem debug_mode_changes_only_the_log fs self Query :
  let quiet := {| inverted_index := inverted_index self;
                  post_metadata := post_metadata self; debug := false |} in
  let verbose := {| inverted_index := inverted_index self;
                    post_metadata := post_metadata self; debug := true |} in
  outcome (search fs verbose Query) = outcome (search fs quiet Query) /\
  List.filter (fun ev => negb (is_debug ev)) (printed (search fs verbose Query))
    = printed (search fs quiet Query).
Proof.
  intros quiet verbose.
  destruct (preprocess_query Query) as [|term rest] eqn:Hq.
  - by rewrite !search_no_term.
  - destruct (inverted_index self !! term) as [e|] eqn:He.
    + set (idf := if (df e =? 0)%nat then of_int 0
                  else flog (fadd (of_int 1) (truediv (size (post_metadata self)) (df e)))).
      pose proof (score_posts_debug fs term idf (post_ids e) []) as (Ho & Hp & _).
      assert (scores_of fs verbose term = score_posts fs true term idf (post_ids e) [])
        as Hv by exact (scores_of_eq fs verbose term e He).
      assert (scores_of fs quiet term = score_posts fs false term idf (post_ids e) [])
        as Hqt by exact (scores_of_eq fs quiet term e He).
      destruct (score_posts fs true term idf (post_ids e) []) as [out1 r1] eqn:H1.
      destruct (score_posts fs false term idf (post_ids e) []) as [out2 r2] eqn:H2.
      simpl in Ho, Hp. subst r2 out2.
      destruct (score_posts_returns fs true term idf (post_ids e) [])
        as (o & scores & Hret).
      rewrite H1 in Hret. injection Hret as -> ->.
      rewrite (search_found fs verbose Query term rest e _ _ Hq He Hv).
      rewrite (search_found fs quiet Query term rest e _ _ Hq He Hqt).
      split; [done|]. unfold printed. simpl.
      rewrite List.filter_app. simpl. f_equal. f_equal. f_equal.
      induction (take 20 (sorted_desc scores)) as [|p l IHl]; [done|].
      simpl. by rewrite IHl.
    + by rewrite (search_not_found fs verbose Query term rest Hq He),
        (search_not_found fs quiet Query term rest Hq He).
Qed.
End SearchProperties.

(** ** From the corpus to the answer of a query *)

Section EndToEnd.
Context `{U : Unicode} `{L : Nltk} `{F : PyFloat}.

(** The postings of a term in the engine built over a corpus. *)
Lemma built_postings (fs0 : FS) (posts : list Post) (self : SearchEngine)
    (term : pystr) :
  posts <> [] ->
  outcome (__init__ (build_inverted_index fs0 posts)) = inr self ->
  (inverted_index self !! term = None <-> forall p, p ∈ posts -> term ∉ tokens_of p) /\
  (forall e, inverted_index self !! term = Some e ->
     NoDup (post_ids e) /\
     (forall pid, pid ∈ post_ids e <->
        exists p, p ∈ posts /\ pid_of p = pid /\ term ∈ tokens_of p) /\
     (forall pid, pid ∈ post_ids e ->
        is_Some (json_posts (build_inverted_index fs0 posts) !! pid))).
Proof.
  intros Hne Hinit. rewrite (built_engine _ _ _ Hne Hinit). simpl. split.
  - pose proof (index_posts_lookup_None posts
      {| bs_index := ∅; bs_metadata := ∅; bs_files := json_posts fs0 |} term) as Hnone.
    simpl in Hnone. rewrite lookup_empty in Hnone.
    fold (index_posts fs0 posts) in Hnone. rewrite Hnone.
    split; [by intros [_ ?] | done].
  - intros e He.
    destruct (built_index_ok fs0 posts _ _ He) as (_ & Hnd & _ & Hfiles).
    split_and!; [done | |].
    + intros pid.
      pose proof (index_posts_post_ids posts
        {| bs_index := ∅; bs_metadata := ∅; bs_files := json_posts fs0 |} term pid) as Hin.
      fold (index_posts fs0 posts) in Hin. unfold entry_of in Hin.
      rewrite He in Hin. simpl in Hin. rewrite lookup_empty in Hin. simpl in Hin.
      rewrite Hin. split; [intros [H|?]; [by inversion H | done] | by right].
    + intros pid Hpid. rewrite build_writes by done. simpl.
      rewrite Forall_forall in Hfiles. by apply Hfiles.
Qed.

(** X13: over the artifacts of a build, a query whose first term occurs in no
    post of the corpus gets the empty list with the term-not-found message. *)
Theorem term_of_no_post_is_not_found (fs0 : FS) (posts : list Post)
    (self : SearchEngine) (Query term : pystr) (rest : list pystr) :
  posts <> [] ->
  let fs := build_inverted_index fs0 posts in
  outcome (__init__ fs) = inr self ->
  preprocess_query Query = term :: rest ->
  (forall p, p ∈ posts -> term ∉ tokens_of p) ->
  search fs self Query = ([SearchingFor term; TermNotFound term], inr []).
Proof.
  intros Hne fs Hinit Hq Hnone.
  destruct (built_postings fs0 posts self term Hne Hinit) as [Habsent _].
  apply (search_not_found _ _ _ _ _ Hq). by apply Habsent.
Qed.

(** X14: over the artifacts of a build, every document that [search] returns
    is a post of the corpus in which the first term of the query occurs. *)
Theorem search_returns_posts_with_the_term (fs0 : FS) (posts : list Post)
    (self : SearchEngine) (Query : pystr) (ids : list pystr) :
  posts <> [] ->
  let fs := build_inverted_index fs0 posts in
  outcome (__init__ fs) = inr self ->
  outcome (search fs self Query) = inr ids ->
  forall pid, pid ∈ ids ->
    exists term rest p,
      preprocess_query Query = term :: rest /\
      p ∈ posts /\ pid_of p = pid /\ term ∈ tokens_of p.
Proof.
  intros Hne fs Hinit Hsearch pid Hpid.
  destruct (preprocess_query Query) as [|term rest] eqn:Hq.
  - rewrite (search_no_term _ _ _ Hq) in Hsearch. simpl in Hsearch.
    injection Hsearch as <-. by inversion Hpid.
  - destruct (inverted_index self !! term) as [e|] eqn:He.
    + destruct (search_found_spec fs self Query term rest e Hq He)
        as (out & scores & Heq & _ & Hkeys & _).
      rewrite Heq in Hsearch. simpl in Hsearch. injection Hsearch as <-.
      destruct (top_20_ids scores) as (Hsub & _ & _).
      apply Hsub, Hkeys in Hpid as [Hpid _].
      destruct (built_postings fs0 posts self term Hne Hinit) as [_ Hposts].
      destruct (Hposts e He) as (_ & Hin & _).
      apply Hin in Hpid as (p & ? & ? & ?). by exists term, rest, p.
    + rewrite (search_not_found _ _ _ _ _ Hq He) in Hsearch. simpl in Hsearch.
      injection Hsearch as <-. by inversion Hpid.
Qed.

(** X15: over the artifacts of a build, when the first term of the query
    occurs in at most 20 posts, [search] returns every one of them. *)
Theorem search_finds_every_post_with_the_term (fs0 : FS) (posts : list Post)
    (self : SearchEngine) (Query term : pystr) (rest : list pystr) (p : Post) :
  posts <> [] ->
  let fs := build_inverted_index fs0 posts in
  outcome (__init__ fs) = inr self ->
  preprocess_query Query = term :: rest ->
  (List.length (List.filter (mentions term) posts) <= 20)%nat ->
  p ∈ posts -> term ∈ tokens_of p ->
  exists ids, outcome (search fs self Query) = inr ids /\ pid_of p ∈ ids.
Proof.
  intros Hne fs Hinit Hq Hfew Hp Ht.
  destruct (built_postings fs0 posts self term Hne Hinit) as [Habsent Hposts].
  destruct (inverted_index self !! term) as [e|] eqn:He.
  - destruct (Hposts e eq_refl) as (Hnd & Hin & Hfiles).
    destruct (search_found_spec fs self Query term rest e Hq He)
      as (out & scores & -> & Hnds & Hkeys & _).
    destruct (top_20_ids scores) as (_ & Hall & _).
    eexists. split; [reflexivity|].
    assert (pid_of p ∈ post_ids e) as Hpid by (apply Hin; by exists p).
    apply Hall; [|apply Hkeys; split; [done | by apply Hfiles]].
    assert (scores.*1 ⊆+ pid_of <$> List.filter (mentions term) posts) as Hsubm.
    { apply NoDup_submseteq; [done|]. intros x Hx.
      apply Hkeys in Hx as [Hx _]. apply Hin in Hx as (q & Hq' & <- & Htq).
      apply list_elem_of_fmap_2, list_elem_of_In, filter_In.
      split; [by apply list_elem_of_In | by apply bool_decide_eq_true]. }
    apply submseteq_length in Hsubm. rewrite !length_fmap in Hsubm. lia.
  - exfalso. apply (proj1 Habsent eq_refl p Hp Ht).
Qed.
End EndToEnd.

(** ** Further properties of the normaliser *)

Section TokenizerFacts.
Context `{U : Unicode}.
Implicit Types (s cur w : pystr).

Local Abbreviation spaceless := (Forall (fun c => isspace c = false)).

Lemma emit_spec cur w : w ∈ emit cur -> w = rev cur /\ cur <> [].
Proof.
  destruct cur as [|c cur]; simpl; [by inversion 1|].
  intros ->%list_elem_of_singleton. done.
Qed.

(** The tokens are not empty and hold no whitespace, and their characters
    come from the text. *)
Lemma split_from_tokens cur s w :
  spaceless cur -> w ∈ split_from cur s ->
  w <> [] /\ spaceless w /\ forall c, c ∈ w -> c ∈ cur \/ c ∈ s.
Proof.
  revert cur. induction s as [|c s IH]; intros cur Hcur; simpl.
  - intros [-> Hne]%emit_spec. split_and!.
    + intros Hnil. apply Hne. by rewrite <- (rev_involutive cur), Hnil.
    + rewrite Forall_forall in *. intros x Hx. apply Hcur.
      by apply list_elem_of_In, in_rev, list_elem_of_In.
    + intros x Hx. left. by apply list_elem_of_In, in_rev, list_elem_of_In.
  - destruct (isspace c) eqn:Hc.
    + intros [Hw|Hw]%elem_of_app.
      * apply emit_spec in Hw as [-> Hne]. split_and!.
        -- intros Hnil. apply Hne. by rewrite <- (rev_involutive cur), Hnil.
        -- rewrite Forall_forall in *. intros x Hx. apply Hcur.
           by apply list_elem_of_In, in_rev, list_elem_of_In.
        -- intros x Hx. left. by apply list_elem_of_In, in_rev, list_elem_of_In.
      * destruct (IH [] ltac:(constructor) Hw) as (? & ? & Hsub). split_and!; [done..|].
        intros x Hx. destruct (Hsub x Hx) as [Hnil|?]; [by inversion Hnil|].
        right. by right.
    + intros Hw. destruct (IH (c :: cur)) as (? & ? & Hsub); [by constructor | done |].
      split_and!; [done..|]. intros x Hx.
      destruct (Hsub x Hx) as [[->|?]%elem_of_cons|?];
        [right; by left | by left | right; by right].
Qed.

(** No token at all: the text is whitespace only. *)
Lemma split_from_nil cur s :
  split_from cur s = [] <-> cur = [] /\ Forall (fun c => isspace c = true) s.
Proof.
  revert cur. induction s as [|c s IH]; intros cur; simpl.
  - destruct cur; simpl; split; try done. by intros [? _].
  - destruct (isspace c) eqn:Hc.
    + split.
      * intros [Hemit Hrest]%app_eq_nil. apply IH in Hrest as [_ Hrest].
        split; [by destruct cur | by constructor].
      * intros [-> [_ Hrest]%Forall_cons]. simpl. apply IH. done.
    + rewrite IH. split; [by intros [? _] | intros [_ [? _]%Forall_cons]; congruence].
Qed.

(** A run without whitespace goes to the current piece. *)
Lemma split_from_app cur p s :
  spaceless p -> split_from cur (p ++ s) = split_from (rev p ++ cur) s.
Proof.
  revert cur. induction p as [|c p IH]; intros cur Hp; [done|].
  apply Forall_cons in Hp as [Hc Hp]. simpl. rewrite Hc, IH by done.
  by rewrite <- app_assoc.
Qed.

(** Joining tokens with a space and splitting again gives the tokens back. *)
Lemma tokenize_join (tokens : list pystr) :
  Forall (fun w => w <> [] /\ spaceless w) tokens ->
  whitespace_tokenize (join (str " ") tokens) = tokens.
Proof.
  unfold whitespace_tokenize.
  induction tokens as [|p tokens IH]; intros Hall; [done|].
  apply Forall_cons in Hall as [[Hne Hp] Hall].
  assert (emit (rev p) = [p]) as Hemit.
  { unfold emit. destruct (rev p) eqn:Hr.
    - exfalso. apply Hne. by rewrite <- (rev_involutive p), Hr.
    - by rewrite <- Hr, rev_involutive. }
  destruct tokens as [|q tokens].
  - simpl. rewrite <- (app_nil_r p) at 1. rewrite split_from_app by done.
    simpl. by rewrite app_nil_r.
  - change (join (str " ") (p :: q :: tokens))
      with (p ++ 32 :: join (str " ") (q :: tokens)).
    rewrite split_from_app by done. rewrite app_nil_r.
    cbn [split_from]. replace (isspace 32) with true by done.
    by rewrite Hemit, IH.
Qed.
End TokenizerFacts.

Section PatternFacts.
Context `{U : Unicode}.
Implicit Types (s : pystr) (p : N -> bool).

Lemma run_take p s : Forall (fun c => p c = true) (take (run p s) s).
Proof.
  induction s as [|c s IH]; simpl; [constructor|].
  destruct (p c) eqn:Hc; simpl; constructor; done.
Qed.

Lemma run_le_length p s : (run p s <= List.length s)%nat.
Proof. induction s as [|c s IH]; simpl; [lia|]. destruct (p c); simpl; lia. Qed.

(** After a run comes the end of the text, or a character outside the class. *)
Lemma run_drop p s : match drop (run p s) s with [] => True | c :: _ => p c = false end.
Proof.
  induction s as [|c s IH]; simpl; [done|]. destruct (p c) eqn:Hc; simpl; done.
Qed.

(** Deleting the runs of a class deletes the characters of the class. *)
Lemma sub_from_plus p skip s :
  Forall (fun c => p c = true) (take skip s) ->
  sub_from (plus p) skip s = List.filter (fun c => negb (p c)) s.
Proof.
  revert skip. induction s as [|c s IH]; intros skip Hskip; [done|].
  destruct skip as [|k]; simpl.
  - unfold plus. simpl. destruct (p c) eqn:Hc; simpl.
    + apply IH, run_take.
    + f_equal. apply IH. constructor.
  - simpl in Hskip. apply Forall_cons in Hskip as [-> Hskip]. simpl. by apply IH.
Qed.

Lemma re_sub_plus p s : re_sub (plus p) s = List.filter (fun c => negb (p c)) s.
Proof. apply sub_from_plus. constructor. Qed.

(** What a match of a literal followed by a run is. *)
Lemma lit_plus_match (l : pystr) p s n :
  lit l (plus p) s = Some n ->
  exists r, take n s = l ++ r /\ r <> [] /\ Forall (fun c => p c = true) r /\
    (n <= List.length s)%nat /\
    match drop n s with [] => True | c :: _ => p c = false end.
Proof.
  revert s n. induction l as [|c l IH]; intros s n; simpl.
  - unfold plus. destruct (run p s) as [|k] eqn:Hrun; [done|]. intros [= <-].
    exists (take (S k) s). rewrite <- Hrun. split_and!.
    + done.
    + rewrite Hrun. destruct s; [done | by simpl].
    + apply run_take.
    + apply run_le_length.
    + apply run_drop.
  - destruct s as [|d s]; [done|].
    destruct (N.eqb_spec c d) as [->|]; [|done].
    destruct (lit l (plus p) s) as [m|] eqn:Hm; [|done]. simpl. intros [= <-].
    destruct (IH _ _ Hm) as (r & Htake & Hne & Hall & Hlen & Hnext).
    exists r. simpl. rewrite Htake. split_and!; [done | done | done | lia | done].
Qed.
End PatternFacts.

Section NormaliserProperties.
Context `{U : Unicode} `{L : Nltk}.

(** In the model a row has no token exactly when its text is [NULL] or holds
    nothing but characters of [\s]; a token is never empty and holds none of
    them. *)
Lemma no_tokens_iff_whitespace (post : Post) :
  (~ has_tokens post <->
   clean_text post = None \/
   exists s, clean_text post = Some s /\ Forall (fun c => isspace c = true) s) /\
  (forall w, w ∈ tokens_of post ->
     w <> [] /\ Forall (fun c => isspace c = false) w).
Proof.
  unfold has_tokens, tokens_of, tokenize_text. split.
  - destruct (clean_text post) as [[|c s]|].
    + split; [intros _; right; by exists [] | by intros _ H].
    + unfold whitespace_tokenize. split.
      * intros Hnil. right. exists (c :: s). split; [done|].
        apply (split_from_nil [] (c :: s)).
        by destruct (split_from [] (c :: s)); [|destruct Hnil].
      * intros [?|(s' & [= <-] & Hall)] Htok; [done|].
        apply Htok, split_from_nil. done.
    + split; [by left | by intros _ H].
  - intros w Hw. destruct (clean_text post) as [[|c s]|]; [by inversion Hw | | by inversion Hw].
    destruct (split_from_tokens [] (c :: s) w) as (? & ? & _); [constructor | done | done].
Qed.

Lemma plain_separator_isspace (c : N) :
  plain_separator c = true -> isspace c = true.
Proof.
  unfold plain_separator. rewrite !orb_true_iff, !N.eqb_eq.
  intros [[-> | ->] | ->]; reflexivity.
Qed.

(** X16: for a row whose text has no whitespace other than spaces, tabs and
    newlines (as the texts that [clean_text] joins with single spaces), the
    builder skips the row, as one without tokens, exactly when its
    [clean_text] is [NULL] or holds nothing but these separators; the tokens
    of the row are not empty and hold no whitespace. *)
Theorem rows_without_tokens_are_blank (post : Post) :
  (forall s c, clean_text post = Some s -> c ∈ s -> isspace c = true ->
     plain_separator c = true) ->
  (~ has_tokens post <->
   clean_text post = None \/
   exists s, clean_text post = Some s /\
     Forall (fun c => plain_separator c = true) s) /\
  (forall w, w ∈ tokens_of post ->
     w <> [] /\ Forall (fun c => isspace c = false) w).
Proof.
  intros Hplain. destruct (no_tokens_iff_whitespace post) as [Hskip Htokens].
  split; [|exact Htokens]. rewrite Hskip. split.
  - intros [Hnone | (s & Hs & Hall)]; [by left|]. right. exists s. split; [done|].
    rewrite Forall_forall in Hall. apply Forall_forall. intros c Hc.
    apply (Hplain s c Hs Hc), Hall, Hc.
  - intros [Hnone | (s & Hs & Hall)]; [by left|]. right. exists s. split; [done|].
    eapply Forall_impl; [exact Hall|]. intros c. apply plain_separator_isspace.
Qed.

(** X17: tokenizing the text that [clean_text] returns gives back the list of
    stems that it joined, provided that no stem of a kept word is empty or
    holds whitespace. *)
Theorem tokenizing_clean_text_gives_the_stems (text : pystr) :
  (forall w, w ∈ kept_words text ->
     stem w <> [] /\ Forall (fun c => isspace c = false) (stem w)) ->
  DataCleaner.clean_text (Some text) = join (str " ") (cleaned_tokens text) /\
  tokenize_text (Some (DataCleaner.clean_text (Some text))) = cleaned_tokens text.
Proof.
  intros Hstem.
  assert (DataCleaner.clean_text (Some text) = join (str " ") (cleaned_tokens text))
    as Hclean by (by destruct text).
  split; [done|]. rewrite Hclean.
  assert (whitespace_tokenize (join (str " ") (cleaned_tokens text))
          = cleaned_tokens text) as Hround.
  { apply tokenize_join. unfold cleaned_tokens. apply Forall_forall.
    intros w' (w & <- & Hw)%list_elem_of_In%in_map_iff.
    apply Hstem. by apply list_elem_of_In. }
  assert (forall s, tokenize_text (Some s) = whitespace_tokenize s) as Htok
    by (by intros []).
  by rewrite Htok.
Qed.

(** X18: the words that [clean_text] hands to the stemmer are made of ASCII
    letters only, have at least three of them, and are not stop words. *)
Theorem clean_text_stems_ascii_words (text w : pystr) :
  w ∈ kept_words text ->
  Forall (fun c => ascii_letter c = true) w /\ (3 <= List.length w)%nat
  /\ w ∉ stop_words.
Proof.
  unfold kept_words. intros [Htok Hkeep]%list_elem_of_In%filter_In.
  apply list_elem_of_In in Htok.
  unfold DataCleaner.keep_word in Hkeep.
  apply andb_true_iff in Hkeep as [[Hstop Halpha]%andb_true_iff Hlen].
  split_and!.
  - destruct (split_from_tokens [] _ w ltac:(constructor) Htok) as (_ & _ & Hsub).
    assert (forallb isalpha_char w = true) as Hall by (by destruct w).
    rewrite forallb_forall in Hall. apply Forall_forall. intros c Hc.
    specialize (Hall c (proj1 (list_elem_of_In _ _) Hc)).
    destruct (Hsub c Hc) as [Hnil|Hin]; [by inversion Hnil|].
    unfold remove_punctuation in Hin.
    apply list_elem_of_In, filter_In in Hin as [Hin _].
    unfold non_ascii_re in Hin.
    rewrite re_sub_plus in Hin. apply filter_In in Hin as [_ Hascii].
    unfold non_ascii in Hascii. rewrite negb_involutive in Hascii.
    unfold isalpha_char in Hall. by rewrite Hascii in Hall.
  - apply Nat.ltb_lt in Hlen. lia.
  - apply negb_true_iff in Hstop. by apply bool_decide_eq_false in Hstop.
Qed.

(** X19: stripping the digits deletes exactly the decimal digits of the text,
    and stripping the non-ASCII characters exactly the code points above
    127; the other characters stay, in their order. *)
Theorem stripping_deletes_the_class (text : pystr) :
  re_sub digits_re text = List.filter (fun c => negb (isdecimal c)) text /\
  re_sub non_ascii_re text = List.filter is_ascii text.
Proof.
  split; [apply re_sub_plus|].
  unfold non_ascii_re. rewrite re_sub_plus. unfold non_ascii.
  induction text as [|c text IH]; [done|]. simpl.
  rewrite negb_involutive, IH. done.
Qed.
End NormaliserProperties.

(** ** Properties of [extract_urls] and of the entry check of the interface *)

Section UrlFacts.
Import Urls.
Context `{U : Unicode}.

Lemma findall_from_elem (m : matcher) skip s u :
  u ∈ findall_from m skip s ->
  exists pre rest n, s = pre ++ rest /\ m rest = Some n /\ (0 < n)%nat
                     /\ u = take n rest.
Proof.
  revert skip. induction s as [|c s IH]; intros skip; [by inversion 1|].
  assert (forall k, u ∈ findall_from m k s ->
    exists pre rest n, c :: s = pre ++ rest /\ m rest = Some n /\ (0 < n)%nat
                       /\ u = take n rest) as Hrest.
  { intros k Hu. destruct (IH _ Hu) as (pre & rest & n & -> & ? & ? & ?).
    by exists (c :: pre), rest, n. }
  destruct skip as [|k]; cbn [findall_from]; [|apply Hrest].
  destruct (m (c :: s)) as [[|n]|] eqn:Hm; [apply Hrest | | apply Hrest].
  intros [->|Hu]%elem_of_cons; [|by eapply Hrest].
  exists [], (c :: s), (S n). split_and!; [done | done | lia | done].
Qed.

(** X20: every link that [extract_urls] returns is a piece of the text that
    begins with [http] or [www], goes on with at least one more character,
    holds no whitespace, and ends where the text ends or whitespace
    follows. *)
Theorem extracted_urls_are_links_of_the_text (text u : pystr) :
  u ∈ extract_urls text ->
  (exists pre post,
     text = pre ++ u ++ post /\
     match post with [] => True | c :: _ => isspace c = true end) /\
  Forall (fun c => isspace c = false) u /\
  exists r, r <> [] /\ (u = str "http" ++ r \/ u = str "www" ++ r).
Proof.
  unfold extract_urls, re_findall.
  intros (pre & rest & n & -> & Hm & _ & ->)%findall_from_elem.
  assert (exists l, (l = str "http" \/ l = str "www") /\
                    lit l (plus nonspace) rest = Some n) as (l & Hl & Hlit).
  { unfold link_re, alt in Hm.
    destruct (lit (str "http") (plus nonspace) rest) as [k|] eqn:Hhttp.
    - injection Hm as <-. exists (str "http"). by split; [left|].
    - exists (str "www"). by split; [right|]. }
  destruct (lit_plus_match l nonspace rest n Hlit)
    as (r & Htake & Hne & Hall & Hlen & Hnext).
  split_and!.
  - exists pre, (drop n rest). rewrite take_drop. split; [done|].
    destruct (drop n rest); [done|]. unfold nonspace in Hnext.
    by apply negb_false_iff in Hnext.
  - rewrite Htake. apply Forall_app. split.
    + destruct Hl as [-> | ->]; by repeat constructor.
    + eapply Forall_impl; [exact Hall|]. intros c Hc. unfold nonspace in Hc.
      by apply negb_true_iff in Hc.
  - exists r. split; [done|]. rewrite Htake. destruct Hl as [-> | ->]; auto.
Qed.
End UrlFacts.

Section EntryFacts.
Import Gui.
Context `{U : Unicode} `{L : Nltk}.
Implicit Types (c : N) (w s : pystr).

Lemma between_spec lo hi c : between lo hi c = true <-> (lo <= c <= hi)%N.
Proof. unfold between. rewrite andb_true_iff, !N.leb_le. done. Qed.

Lemma ascii_letter_spec c :
  ascii_letter c = true <-> (65 <= c <= 90)%N \/ (97 <= c <= 122)%N.
Proof. unfold ascii_letter. by rewrite orb_true_iff, !between_spec. Qed.

Local Abbreviation small := (fun c => between 97 122 c = true).
Local Abbreviation lowered := (fun c => if ascii_upper c then (c + 32)%N else c).

(** Lowering a word of ASCII letters, letter by letter. *)
Lemma lower_letters before w :
  Forall (fun c => ascii_letter c = true) w ->
  lower_from before w = List.map lowered w /\ Forall small (List.map lowered w).
Proof.
  revert before. induction w as [|c w IH]; intros before Hw; [by split; [|constructor]|].
  apply Forall_cons in Hw as [Hc Hw]. destruct (IH (c :: before) Hw) as [Heq Hall].
  simpl. rewrite Heq.
  apply ascii_letter_spec in Hc.
  assert (is_ascii c = true) as -> by (apply N.ltb_lt; lia).
  split; [done|]. constructor; [|done].
  unfold ascii_upper. destruct (between 65 90 c) eqn:Hup.
  - apply between_spec in Hup. apply between_spec. lia.
  - apply between_spec. destruct Hc as [Hc|Hc]; [|done].
    apply between_spec in Hc. congruence.
Qed.

Lemma small_classes c :
  small c ->
  isspace c = false /\ isalpha_char c = true
  /\ ((c =? 64) || (c =? 35))%N = false /\ bool_decide (c ∈ punctuation) = false.
Proof.
  intros Hc. apply between_spec in Hc.
  assert (is_ascii c = true) as Hascii by (apply N.ltb_lt; lia).
  unfold isspace, isalpha_char. rewrite Hascii. split_and!.
  - unfold ascii_space.
    rewrite !orb_false_iff. split_and!; [| |apply N.eqb_neq; lia];
      apply not_true_is_false; rewrite between_spec; lia.
  - apply ascii_letter_spec. by right.
  - apply orb_false_iff. split; apply N.eqb_neq; lia.
  - apply bool_decide_eq_false. intros Hin.
    assert (Forall (fun d => between 97 122 d = false) punctuation) as Hpunct
      by (by apply (bool_decide_unpack _)).
    rewrite Forall_forall in Hpunct. specialize (Hpunct c Hin).
    apply not_true_iff_false in Hpunct. apply Hpunct, between_spec. done.
Qed.

(** The query pipeline on a word of small letters: the word itself is its
    only token. *)
Lemma preprocess_small_word w :
  w <> [] -> Forall small w ->
  re_sub mention_re w = w /\ remove_punctuation w = w
  /\ whitespace_tokenize w = [w] /\ isalpha w = true.
Proof.
  intros Hne Hw. split_and!.
  - unfold re_sub. clear Hne. induction w as [|c w IH]; [done|].
    apply Forall_cons in Hw as [Hc Hw]. destruct (small_classes c Hc) as (_ & _ & Hat & _).
    cbn [sub_from]. unfold mention_re at 1, one. rewrite Hat. by rewrite IH.
  - unfold remove_punctuation. clear Hne. induction w as [|c w IH]; [done|].
    apply Forall_cons in Hw as [Hc Hw]. destruct (small_classes c Hc) as (_ & _ & _ & Hp).
    simpl. rewrite Hp. simpl. by rewrite IH.
  - apply (tokenize_join [w]).
    constructor; [|constructor]. split; [done|].
    eapply Forall_impl; [exact Hw|]. intros c Hc. by apply small_classes.
  - destruct w as [|c w]; [done|]. unfold isalpha. apply forallb_forall.
    intros d Hd. rewrite Forall_forall in Hw.
    by apply small_classes, Hw, list_elem_of_In.
Qed.

(** The last character of a stripped text is not whitespace. *)
Lemma strip_last s l c : strip s = l ++ [c] -> isspace c = false.
Proof.
  unfold strip. intros Heq.
  assert (lstrip (rev (lstrip s)) = c :: rev l) as Hrev.
  { rewrite <- (rev_involutive (lstrip (rev (lstrip s)))), Heq, rev_app_distr. done. }
  unfold lstrip in Hrev at 1.
  pose proof (run_drop isspace (rev (lstrip s))) as Hnext.
  by rewrite Hrev in Hnext.
Qed.

(** X21: a text of the entry field that [search_word] passes on to [search]
    is a word of 1 to 30 ASCII letters, and the query pipeline turns it into
    at most one term: the stem of the lowered word, or none if that is a stop
    word. *)
Theorem accepted_entry_is_one_term (entry word : pystr) :
  check_entry entry = Search word ->
  word = strip entry /\
  Forall (fun c => ascii_letter c = true) word /\
  (1 <= List.length word <= 30)%nat /\
  preprocess_query word =
    if bool_decide (lower word ∈ stop_words) then [] else [stem (lower word)].
Proof.
  unfold check_entry. destruct (strip entry) as [|c0 w0] eqn:Hstrip; [done|].
  destruct (30 <? List.length (c0 :: w0))%nat eqn:Hlen; [done|].
  destruct (letters_re (c0 :: w0)) eqn:Hre; [|done]. simpl. intros [= <-].
  apply Nat.ltb_ge in Hlen.
  assert (Forall (fun c => ascii_letter c = true) (c0 :: w0)) as Hletters.
  { unfold letters_re in Hre.
    pose proof (run_take ascii_letter (c0 :: w0)) as Htake.
    destruct (run ascii_letter (c0 :: w0)) as [|n] eqn:Hrun; [done|].
    apply bool_decide_eq_true in Hre as [Hdrop|Hdrop].
    - rewrite <- (take_drop (S n) (c0 :: w0)), Hdrop, app_nil_r. done.
    - exfalso. assert (isspace 10 = false) as Hsp; [|done].
      apply (strip_last entry (take (S n) (c0 :: w0))).
      by rewrite Hstrip, <- Hdrop, take_drop. }
  split_and!; [done | done | simpl; lia | exact Hlen |].
  destruct (lower_letters [] (c0 :: w0) Hletters) as [Hlower Hsmall].
  unfold preprocess_query. fold (lower (c0 :: w0)) in Hlower. rewrite Hlower.
  destruct (preprocess_small_word (List.map lowered (c0 :: w0)))
    as (-> & -> & -> & Halpha); [done | done |].
  simpl. simpl in Halpha. rewrite Halpha. simpl.
  by destruct (bool_decide _).
Qed.
End EntryFacts.

(** ** The metadata table against the postings table *)

Section MetadataProperties.
Context `{U : Unicode}.
Implicit Types (st : BuildState).

Lemma indexed_spec (post : Post) : indexed post = true <-> has_tokens post.
Proof.
  unfold indexed, has_tokens, tokens_of.
  destruct (tokenize_text (clean_text post)); split; done.
Qed.

(** The ids of the metadata table after the loop. *)
Lemma index_posts_metadata_dom posts st :
  dom (bs_metadata (fold_left index_post posts st)) =
    dom (bs_metadata st) ∪ list_to_set (pid_of <$> List.filter indexed posts).
Proof.
  revert st. induction posts as [|p posts IH]; intros st; simpl.
  - change (list_to_set (pid_of <$> [])) with (∅ : gset pystr).
    by rewrite (right_id_L ∅ (∪)).
  - rewrite IH.
    destruct (index_post_cases st p) as [[Hno ->]|[Htok (freq & meta & _ & ->)]].
    + destruct (indexed p) eqn:Hp; [by apply indexed_spec in Hp|]. done.
    + apply indexed_spec in Htok. rewrite Htok. simpl.
      rewrite dom_insert_L. apply set_eq. intros x.
      rewrite !elem_of_union. tauto.
Qed.

(** X22: the number [N] of documents that [search] reads off the metadata
    table is the number of distinct document ids among the posts with
    tokens, and no term has a [df] above it. *)
Theorem metadata_counts_the_indexed_documents (fs : FS) (posts : list Post)
    (idx : gmap pystr IndexEntry) (meta : gmap pystr PostMeta) :
  posts <> [] ->
  inverted_index_json (build_inverted_index fs posts) = Some idx ->
  post_metadata_json (build_inverted_index fs posts) = Some meta ->
  size meta = size (list_to_set (pid_of <$> List.filter indexed posts) : gset pystr) /\
  forall term e, idx !! term = Some e ->
    (df e <= size meta)%nat /\ forall pid, pid ∈ post_ids e -> is_Some (meta !! pid).
Proof.
  intros Hne. rewrite build_writes by done. simpl. intros [= <-] [= <-].
  pose proof (index_posts_metadata_dom posts
    {| bs_index := ∅; bs_metadata := ∅; bs_files := json_posts fs |}) as Hdom.
  fold (index_posts fs posts) in Hdom. simpl in Hdom.
  rewrite dom_empty_L, (left_id_L ∅ (∪)) in Hdom.
  split.
  - rewrite <- size_dom, Hdom. done.
  - intros term e He.
    assert (index_ok (fun pid => pid ∈ dom (bs_metadata (index_posts fs posts)))
              (bs_index (index_posts fs posts))) as Hok.
    { apply index_posts_ok; [apply index_ok_empty|].
      intros p Hp Htok. rewrite Hdom. apply elem_of_list_to_set, list_elem_of_fmap_2.
      apply list_elem_of_In, filter_In. split; [by apply list_elem_of_In|].
      by apply indexed_spec. }
    destruct (Hok _ _ He) as (Hdf & Hnd & _ & Hall). rewrite Forall_forall in Hall.
    split.
    + rewrite Hdf, <- size_dom.
      rewrite <- (size_list_to_set (C := gset pystr) (post_ids e)) by done.
      apply subseteq_size. intros pid Hpid. apply elem_of_list_to_set in Hpid.
      by apply Hall.
    + intros pid Hpid. by apply elem_of_dom, Hall.
Qed.
End MetadataProperties.

Section ShowProperties.
Context `{U : Unicode} `{L : Nltk} `{F : PyFloat}.

End ShowProperties.

(** ** The order of the keys: the dominant term and the postings *)

Section OrderFacts.
Context `{U : Unicode}.
Implicit Types (st : BuildState) (tokens : list pystr).

(** [max] returns the first item of greatest count: all items before it have
    a smaller count. *)
Lemma max_from_first (best : pystr * nat) rest :
  exists l1 l2, best :: rest = l1 ++ max_from best rest :: l2 /\
    Forall (fun x => (snd x < snd (max_from best rest))%nat) l1.
Proof.
  revert best. induction rest as [|y rest IH]; intros best; simpl.
  - exists [], []. split; [done | constructor].
  - destruct (Nat.ltb_spec (snd best) (snd y)) as [Hlt|Hge].
    + destruct (IH y) as (l1 & l2 & Heq & Hall).
      exists (best :: l1), l2. split; [by rewrite Heq|].
      constructor; [|done].
      pose proof (max_from_ge y rest y ltac:(by left)). lia.
    + destruct (IH best) as (l1 & l2 & Heq & Hall).
      destruct l1 as [|b l1].
      * simpl in Heq. injection Heq as Hbest ->.
        exists [], (y :: l2). split; [by rewrite <- Hbest | constructor].
      * simpl in Heq. injection Heq as Hbest Hrest. subst b.
        apply Forall_cons in Hall as [Hb Hall].
        exists (best :: y :: l1), l2. split; [simpl; by rewrite <- Hrest|].
        constructor; [done|]. constructor; [lia | done].
Qed.

Lemma Counter_snoc tokens x :
  Counter (tokens ++ [x]) =
    dict_set x (dict_get x 0 (Counter tokens) + 1)%nat (Counter tokens).
Proof. unfold Counter. by rewrite fold_left_app. Qed.

(** The keys of a [Counter] come in the order in which the tokens first
    occur. *)
Lemma Counter_keys_order tokens (l1 l2 : list pystr) k :
  (Counter tokens).*1 = l1 ++ k :: l2 ->
  exists t1 t2, tokens = t1 ++ k :: t2 /\ forall x, x ∈ t1 -> x ∈ l1.
Proof.
  revert l1 l2. induction tokens as [|x tokens IH] using rev_ind; intros l1 l2 Hkeys.
  - by destruct l1.
  - rewrite Counter_snoc, dict_set_keys in Hkeys.
    destruct (bool_decide (x ∈ (Counter tokens).*1)) eqn:Hx.
    + destruct (IH _ _ Hkeys) as (t1 & t2 & -> & Hsub).
      exists t1, (t2 ++ [x]). split; [by rewrite <- app_assoc | done].
    + destruct l2 as [|z l2 _] using rev_ind.
      * apply (app_inj_tail _ l1) in Hkeys as [Hl1 ->].
        exists tokens, []. split; [done|]. intros y Hy. rewrite <- Hl1.
        by apply Counter_keys.
      * rewrite app_comm_cons, app_assoc in Hkeys.
        apply app_inj_tail in Hkeys as [Hkeys _].
        destruct (IH _ _ Hkeys) as (t1 & t2 & -> & Hsub).
        exists t1, (t2 ++ [x]). split; [by rewrite <- app_assoc | done].
Qed.

Lemma index_post_first_max st post :
  has_tokens post ->
  exists m t1 t2,
    bs_metadata (index_post st post) !! pid_of post = Some m /\
    tokens_of post = t1 ++ max_tf_term m :: t2 /\
    forall x, x ∈ t1 -> (occurrences x (tokens_of post) < max_tf m)%nat.
Proof.
  intros Htok. unfold index_post, pid_of, tokens_of.
  unfold has_tokens in Htok.
  destruct (tokenize_text (clean_text post)) as [|t0 ts] eqn:Htokens; [done|].
  pose proof (Counter_nonempty (t0 :: ts)) as Hne.
  pose proof (Counter_NoDup (t0 :: ts)) as Hnd.
  pose proof (Counter_keys_order (t0 :: ts)) as Horder.
  pose proof (fun t => Counter_get t (t0 :: ts)) as Hget.
  destruct (Counter (t0 :: ts)) as [|first others] eqn:Hc; [by destruct Hne|].
  simpl. rewrite lookup_insert_eq.
  destruct (max_from_first first others) as (l1 & l2 & Heq & Hall).
  destruct (max_from first others) as [k n] eqn:Hmax.
  rewrite Heq in Horder, Hnd, Hget.
  destruct (Horder l1.*1 l2.*1 k) as (t1 & t2 & Hsplit & Hsub);
    [by rewrite fmap_app, fmap_cons|].
  eexists _, t1, t2. split; [reflexivity|]. simpl. split; [done|].
  intros x Hx. apply Hsub, list_elem_of_fmap in Hx as ([x' c] & -> & Hin).
  rewrite Forall_forall in Hall. specialize (Hall _ Hin). simpl in Hall. simpl.
  rewrite <- Hget. rewrite (dict_get_elem x' c 0%nat); [done | done |].
  apply elem_of_app. by left.
Qed.

(** The postings after the loop, in the order of the corpus. *)
Lemma index_posts_order (fs : FS) posts t (l1 l2 : list pystr) pid :
  post_ids (entry_of (bs_index (index_posts fs posts)) t) = l1 ++ pid :: l2 ->
  exists ps1 p ps2,
    posts = ps1 ++ p :: ps2 /\ pid_of p = pid /\ t ∈ tokens_of p /\
    forall q, q ∈ ps1 -> t ∈ tokens_of q -> pid_of q ∈ l1.
Proof.
  revert l1 l2. induction posts as [|p posts IH] using rev_ind; intros l1 l2.
  - unfold index_posts, entry_of. simpl. rewrite lookup_empty. simpl. by destruct l1.
  - unfold index_posts. rewrite fold_left_app. cbn [fold_left].
    fold (index_posts fs posts). rewrite index_post_entry.
    assert (forall l1 l2,
      post_ids (entry_of (bs_index (index_posts fs posts)) t) = l1 ++ pid :: l2 ->
      exists ps1 p0 ps2,
        posts ++ [p] = ps1 ++ p0 :: ps2 /\ pid_of p0 = pid /\ t ∈ tokens_of p0 /\
        forall q, q ∈ ps1 -> t ∈ tokens_of q -> pid_of q ∈ l1) as Hold.
    { intros l1' l2' Hids.
      destruct (IH _ _ Hids) as (ps1 & p0 & ps2 & -> & ? & ? & ?).
      exists ps1, p0, (ps2 ++ [p]). by rewrite <- app_assoc. }
    unfold mentions. destruct (bool_decide (t ∈ tokens_of p)) eqn:Ht; [|apply Hold].
    apply bool_decide_eq_true in Ht. unfold posting_added.
    destruct (bool_decide (pid_of p ∈ _)) eqn:Hin; simpl; [apply Hold|].
    intros Hids. destruct l2 as [|z l2 _] using rev_ind.
    + apply (app_inj_tail _ l1) in Hids as [Hl1 <-].
      exists posts, p, []. split_and!; [done..|].
      intros q Hq Htq. rewrite <- Hl1.
      apply (index_posts_post_ids posts
        {| bs_index := ∅; bs_metadata := ∅; bs_files := json_posts fs |} t).
      right. by exists q.
    + rewrite app_comm_cons, app_assoc in Hids.
      apply app_inj_tail in Hids as [Hids _]. by eapply Hold.
Qed.
End OrderFacts.

Section OrderProperties.
Context `{U : Unicode}.

(** X24: over a corpus whose document ids are pairwise distinct, the
    [max_tf_term] of a post is, among its terms of greatest frequency, the
    one that occurs first in its text: every token before the first
    occurrence of [max_tf_term] has a smaller frequency. *)
Theorem max_tf_term_is_the_first_most_frequent (fs : FS) (posts : list Post)
    (post : Post) :
  NoDup (pid_of <$> posts) -> post ∈ posts -> has_tokens post ->
  exists meta m t1 t2,
    post_metadata_json (build_inverted_index fs posts) = Some meta /\
    meta !! pid_of post = Some m /\
    tokens_of post = t1 ++ max_tf_term m :: t2 /\
    forall x, x ∈ t1 -> (occurrences x (tokens_of post) < max_tf m)%nat.
Proof.
  intros Hnd Hin Htok.
  assert (posts <> []) as Hne by (intros ->; by inversion Hin).
  rewrite build_writes by done. simpl.
  exists (bs_metadata (index_posts fs posts)). unfold index_posts.
  generalize {| bs_index := ∅; bs_metadata := ∅; bs_files := json_posts fs |}.
  clear Hne. induction posts as [|p posts IH]; intros st; [by inversion Hin|].
  rewrite fmap_cons in Hnd. apply NoDup_cons in Hnd as [Hp Hnd].
  simpl. apply elem_of_cons in Hin as [->|Hin].
  - destruct (index_posts_untouched posts (index_post st p) (pid_of p)) as [_ Hmeta].
    { intros q Hq _ Heq. apply Hp. rewrite <- Heq. by apply list_elem_of_fmap_2. }
    destruct (index_post_first_max st p Htok) as (m & t1 & t2 & Hm & Hrest).
    exists m, t1, t2. split; [done|]. by rewrite Hmeta.
  - destruct (IH Hnd Hin (index_post st p)) as (m & t1 & t2 & _ & Hrest).
    by exists m, t1, t2.
Qed.

(** X25: the postings of a term list the documents in the order in which the
    corpus first has the term under their id: a document of the list was
    brought in by a post with the term under its id, and every post with the
    term that comes before that post in the corpus belongs to a document
    listed earlier. *)
Theorem postings_follow_the_corpus (fs : FS) (posts : list Post)
    (idx : gmap pystr IndexEntry) (term pid : pystr) (e : IndexEntry)
    (l1 l2 : list pystr) :
  posts <> [] ->
  inverted_index_json (build_inverted_index fs posts) = Some idx ->
  idx !! term = Some e ->
  post_ids e = l1 ++ pid :: l2 ->
  exists ps1 p ps2,
    posts = ps1 ++ p :: ps2 /\ pid_of p = pid /\ term ∈ tokens_of p /\
    forall q, q ∈ ps1 -> term ∈ tokens_of q -> pid_of q ∈ l1.
Proof.
  intros Hne. rewrite build_writes by done. simpl. intros [= <-] He Hids.
  apply (index_posts_order fs posts term l1 l2 pid).
  unfold entry_of. by rewrite He.
Qed.
End OrderProperties.

(** ** The further properties at concrete inputs *)

Section CaseStudies.
Import Sample Cases.
#[local] Existing Instances ascii_only small_nltk int_float.

(** Decidable facts about the sample data are settled by evaluation. *)
#[local] Ltac by_evaluation := apply (bool_decide_unpack _); vm_compute; exact I.

Lemma corpus_ids_distinct : NoDup (pid_of <$> corpus).
Proof. by_evaluation. Defined.

Lemma store_index :
  inverted_index_json (build_inverted_index no_files corpus)
    = Some (bs_index (index_posts no_files corpus)).
Proof. vm_compute. reflexivity. Defined.

Lemma store_metadata :
  post_metadata_json (build_inverted_index no_files corpus)
    = Some (bs_metadata (index_posts no_files corpus)).
Proof. vm_compute. reflexivity. Defined.

Lemma store_cat : bs_index (index_posts no_files corpus) !! str "cat" = Some cat_entry.
Proof. vm_compute. reflexivity. Defined.

Lemma store_engine :
  outcome (__init__ (build_inverted_index no_files corpus)) = inr (engine_over store).
Proof. vm_compute. reflexivity. Defined.

Lemma index_holds_the_posts_of_each_term_witness :
  (forall term, is_Some (bs_index (index_posts no_files corpus) !! term) <->
     exists p, p ∈ corpus /\ term ∈ tokens_of p) /\
  (forall term e pid, bs_index (index_posts no_files corpus) !! term = Some e ->
     (pid ∈ post_ids e <->
      exists p, p ∈ corpus /\ pid_of p = pid /\ term ∈ tokens_of p)).
Proof.
  assert (corpus <> []) as Hne by discriminate.
  exact (index_holds_the_posts_of_each_term no_files corpus _ Hne store_index).
Defined.

Lemma tf_total_counts_every_row_witness :
  tf_total repeated_cat_entry
    = sum_list_with (fun p => occurrences (str "cat") (tokens_of p)) repeated_corpus.
Proof.
  assert (repeated_corpus <> []) as Hne by discriminate.
  assert (inverted_index_json (build_inverted_index no_files repeated_corpus)
            = Some (bs_index (index_posts no_files repeated_corpus))) as Hidx
    by (vm_compute; reflexivity).
  assert (bs_index (index_posts no_files repeated_corpus) !! str "cat"
            = Some repeated_cat_entry) as He by (vm_compute; reflexivity).
  exact (tf_total_counts_every_row no_files repeated_corpus _ (str "cat")
           repeated_cat_entry Hne Hidx He).
Defined.

Lemma df_counts_distinct_ids_witness :
  df repeated_cat_entry
    = size (list_to_set (pid_of <$> List.filter (mentions (str "cat")) repeated_corpus)
              : gset pystr).
Proof.
  assert (repeated_corpus <> []) as Hne by discriminate.
  assert (inverted_index_json (build_inverted_index no_files repeated_corpus)
            = Some (bs_index (index_posts no_files repeated_corpus))) as Hidx
    by (vm_compute; reflexivity).
  assert (bs_index (index_posts no_files repeated_corpus) !! str "cat"
            = Some repeated_cat_entry) as He by (vm_compute; reflexivity).
  exact (df_counts_distinct_ids no_files repeated_corpus _ (str "cat")
           repeated_cat_entry Hne Hidx He).
Defined.

Lemma files_sum_to_tf_total_witness :
  tf_total cat_entry
    = postings_tf (json_posts (build_inverted_index no_files corpus)) (str "cat")
        cat_entry.
Proof.
  assert (corpus <> []) as Hne by discriminate.
  exact (files_sum_to_tf_total no_files corpus _ (str "cat") cat_entry
           corpus_ids_distinct Hne store_index store_cat).
Defined.

Lemma file_records_the_frequencies_witness :
  file_tf (build_inverted_index no_files corpus) (pid_of (post 1 "cat love cat"))
      (str "cat")
    = occurrences (str "cat") (tokens_of (post 1 "cat love cat")).
Proof.
  assert (post 1 "cat love cat" ∈ corpus) as Hin by left.
  assert (has_tokens (post 1 "cat love cat")) as Htok by (vm_compute; discriminate).
  exact (file_records_the_frequencies no_files corpus _ (str "cat")
           corpus_ids_distinct Hin Htok).
Defined.

Lemma postings_have_positive_frequency_witness :
  (0 < file_tf (build_inverted_index no_files corpus) (str "1") (str "cat"))%nat.
Proof.
  assert (corpus <> []) as Hne by discriminate.
  assert (str "1" ∈ post_ids cat_entry) as Hin by left.
  exact (postings_have_positive_frequency no_files corpus _ (str "cat") (str "1")
           cat_entry corpus_ids_distinct Hne store_index store_cat Hin).
Defined.

Lemma metadata_describes_the_post_witness :
  let post := post 1 "cat love cat" in
  exists meta m,
    post_metadata_json (build_inverted_index no_files corpus) = Some meta /\
    meta !! pid_of post = Some m /\
    meta_length m = List.length (tokens_of post) /\
    max_tf_term m ∈ tokens_of post /\
    max_tf m = occurrences (max_tf_term m) (tokens_of post) /\
    (forall t, (occurrences t (tokens_of post) <= max_tf m)%nat) /\
    meta_likes m = likes post /\ comments m = comment_count post /\
    date m = str_date <$> post_date_only post.
Proof.
  assert (post 1 "cat love cat" ∈ corpus) as Hin by left.
  assert (has_tokens (post 1 "cat love cat")) as Htok by (vm_compute; discriminate).
  exact (metadata_describes_the_post no_files corpus _ corpus_ids_distinct Hin Htok).
Defined.

Lemma rebuild_forgets_the_old_tables_witness :
  inverted_index_json (build_inverted_index no_files corpus)
    = inverted_index_json (build_inverted_index old_files corpus) /\
  post_metadata_json (build_inverted_index no_files corpus)
    = post_metadata_json (build_inverted_index old_files corpus).
Proof.
  assert (corpus <> []) as Hne by discriminate.
  exact (rebuild_forgets_the_old_tables no_files old_files corpus Hne).
Defined.

Lemma build_keeps_the_files_of_other_documents_witness :
  json_posts (build_inverted_index old_files corpus) !! str "9"
    = json_posts old_files !! str "9".
Proof.
  assert (forall p, p ∈ corpus -> has_tokens p -> pid_of p <> str "9") as Hother.
  { intros p Hp _. unfold corpus in Hp. rewrite !elem_of_cons in Hp.
    destruct Hp as [-> | [-> | [-> | Hp]]]; [vm_compute; discriminate.. |].
    by apply elem_of_nil in Hp. }
  exact (build_keeps_the_files_of_other_documents old_files corpus (str "9") Hother).
Defined.

Lemma search_returns_each_document_once_witness :
  NoDup [str "1"; str "2"] /\
  forall pid, pid ∈ [str "1"; str "2"] ->
    exists term rest e,
      preprocess_query (str "Cats") = term :: rest /\
      inverted_index (engine_over store) !! term = Some e /\
      pid ∈ post_ids e /\ is_Some (json_posts store !! pid).
Proof.
  assert (outcome (search store (engine_over store) (str "Cats"))
            = inr [str "1"; str "2"]) as Hout by (vm_compute; reflexivity).
  exact (search_returns_each_document_once store (engine_over store) (str "Cats")
           _ Hout).
Defined.

Lemma search_skips_documents_without_file_witness :
  exists ids,
    outcome (search store_without_1 (engine_over store) (str "Cats")) = inr ids /\
    (forall pid,
       JsonMissing pid ∈ printed (search store_without_1 (engine_over store) (str "Cats"))
       <-> pid ∈ post_ids cat_entry /\ json_posts store_without_1 !! pid = None) /\
    (forall pid, pid ∈ ids -> is_Some (json_posts store_without_1 !! pid)) /\
    ((List.length (post_ids cat_entry) <= 20)%nat ->
     forall pid, pid ∈ post_ids cat_entry ->
       is_Some (json_posts store_without_1 !! pid) -> pid ∈ ids).
Proof.
  assert (preprocess_query (str "Cats") = [str "cat"]) as Hq
    by (vm_compute; reflexivity).
  assert (inverted_index (engine_over store) !! str "cat" = Some cat_entry) as He
    by (vm_compute; reflexivity).
  exact (search_skips_documents_without_file store_without_1 (engine_over store)
           (str "Cats") (str "cat") [] cat_entry Hq He).
Defined.

Lemma term_of_no_post_is_not_found_witness :
  search (build_inverted_index no_files corpus) (engine_over store) (str "horses")
    = ([SearchingFor (str "horse"); TermNotFound (str "horse")], inr []).
Proof.
  assert (corpus <> []) as Hne by discriminate.
  assert (preprocess_query (str "horses") = [str "horse"]) as Hq
    by (vm_compute; reflexivity).
  assert (forall p, p ∈ corpus -> str "horse" ∉ tokens_of p) as Hno.
  { intros p Hp. unfold corpus in Hp. rewrite !elem_of_cons in Hp.
    destruct Hp as [-> | [-> | [-> | Hp]]]; [by_evaluation.. |].
    by apply elem_of_nil in Hp. }
  exact (term_of_no_post_is_not_found no_files corpus (engine_over store)
           (str "horses") (str "horse") [] Hne store_engine Hq Hno).
Defined.

Lemma search_returns_posts_with_the_term_witness :
  exists term rest p,
    preprocess_query (str "Cats") = term :: rest /\
    p ∈ corpus /\ pid_of p = str "2" /\ term ∈ tokens_of p.
Proof.
  assert (str "2" ∈ [str "1"; str "2"]) as Hin by (right; left).
  assert (corpus <> []) as Hne by discriminate.
  assert (outcome (search (build_inverted_index no_files corpus) (engine_over store)
                     (str "Cats")) = inr [str "1"; str "2"]) as Hout
    by (vm_compute; reflexivity).
  exact (search_returns_posts_with_the_term no_files corpus (engine_over store)
           (str "Cats") _ Hne store_engine Hout (str "2") Hin).
Defined.

Lemma search_finds_every_post_with_the_term_witness :
  exists ids,
    outcome (search (build_inverted_index no_files corpus) (engine_over store)
               (str "Cats")) = inr ids /\
    pid_of (post 2 "dog love cat") ∈ ids.
Proof.
  assert (corpus <> []) as Hne by discriminate.
  assert (preprocess_query (str "Cats") = [str "cat"]) as Hq
    by (vm_compute; reflexivity).
  assert (List.length (List.filter (mentions (str "cat")) corpus) <= 20)%nat as Hfew
    by by_evaluation.
  assert (post 2 "dog love cat" ∈ corpus) as Hin by (right; left).
  assert (str "cat" ∈ tokens_of (post 2 "dog love cat")) as Hterm by by_evaluation.
  exact (search_finds_every_post_with_the_term no_files corpus (engine_over store)
           (str "Cats") (str "cat") [] _ Hne store_engine Hq Hfew Hin Hterm).
Defined.

Lemma rows_without_tokens_are_blank_witness :
  (~ has_tokens (post 1 "cat love cat") <->
   clean_text (post 1 "cat love cat") = None \/
   exists s, clean_text (post 1 "cat love cat") = Some s /\
     Forall (fun c => plain_separator c = true) s) /\
  (forall w, w ∈ tokens_of (post 1 "cat love cat") ->
     w <> [] /\ Forall (fun c => isspace c = false) w).
Proof.
  assert (forall s c, clean_text (post 1 "cat love cat") = Some s -> c ∈ s ->
            isspace c = true -> plain_separator c = true) as Hplain.
  { intros s c [= <-].
    assert (Forall (fun c => isspace c = true -> plain_separator c = true)
              (str "cat love cat")) as Hall by by_evaluation.
    rewrite Forall_forall in Hall. apply Hall. }
  exact (rows_without_tokens_are_blank (post 1 "cat love cat") Hplain).
Defined.

Lemma tokenizing_clean_text_gives_the_stems_witness :
  DataCleaner.clean_text (Some (str "Cats love dogs"))
    = join (str " ") (cleaned_tokens (str "Cats love dogs")) /\
  tokenize_text (Some (DataCleaner.clean_text (Some (str "Cats love dogs"))))
    = cleaned_tokens (str "Cats love dogs").
Proof.
  assert (kept_words (str "Cats love dogs") = [str "cats"; str "love"; str "dogs"])
    as Hwords by (vm_compute; reflexivity).
  assert (forall w, w ∈ kept_words (str "Cats love dogs") ->
            stem w <> [] /\ Forall (fun c => isspace c = false) (stem w)) as Hstems.
  { intros w Hw. rewrite Hwords, !elem_of_cons in Hw.
    destruct Hw as [-> | [-> | [-> | Hw]]]; [by_evaluation.. |].
    by apply elem_of_nil in Hw. }
  exact (tokenizing_clean_text_gives_the_stems (str "Cats love dogs") Hstems).
Defined.

Lemma clean_text_stems_ascii_words_witness :
  Forall (fun c => ascii_letter c = true) (str "cats") /\
  (3 <= List.length (str "cats"))%nat /\ str "cats" ∉ stop_words.
Proof.
  assert (str "cats" ∈ kept_words (str "Cats love dogs")) as Hw by by_evaluation.
  exact (clean_text_stems_ascii_words (str "Cats love dogs") (str "cats") Hw).
Defined.

Lemma extracted_urls_are_links_of_the_text_witness :
  let text := str "see http://ab.cd now" in
  let u := str "http://ab.cd" in
  (exists pre post,
     text = pre ++ u ++ post /\
     match post with [] => True | c :: _ => isspace c = true end) /\
  Forall (fun c => isspace c = false) u /\
  exists r, r <> [] /\ (u = str "http" ++ r \/ u = str "www" ++ r).
Proof.
  assert (str "http://ab.cd" ∈ Urls.extract_urls (str "see http://ab.cd now")) as Hu
    by by_evaluation.
  exact (extracted_urls_are_links_of_the_text (str "see http://ab.cd now")
           (str "http://ab.cd") Hu).
Defined.

Lemma accepted_entry_is_one_term_witness :
  let entry := str "  Cats " in
  let word := str "Cats" in
  word = Gui.strip entry /\
  Forall (fun c => ascii_letter c = true) word /\
  (1 <= List.length word <= 30)%nat /\
  preprocess_query word =
    if bool_decide (lower word ∈ stop_words) then [] else [stem (lower word)].
Proof.
  assert (Gui.check_entry (str "  Cats ") = Gui.Search (str "Cats")) as Hcheck
    by (vm_compute; reflexivity).
  exact (accepted_entry_is_one_term (str "  Cats ") (str "Cats") Hcheck).
Defined.

Lemma metadata_counts_the_indexed_documents_witness :
  let meta := bs_metadata (index_posts no_files corpus) in
  size meta = size (list_to_set (pid_of <$> List.filter indexed corpus) : gset pystr) /\
  forall term e, bs_index (index_posts no_files corpus) !! term = Some e ->
    (df e <= size meta)%nat /\ forall pid, pid ∈ post_ids e -> is_Some (meta !! pid).
Proof.
  assert (corpus <> []) as Hne by discriminate.
  exact (metadata_counts_the_indexed_documents no_files corpus _ _ Hne store_index
           store_metadata).
Defined.


Lemma max_tf_term_is_the_first_most_frequent_witness :
  exists meta m t1 t2,
    post_metadata_json (build_inverted_index no_files [tie_post]) = Some meta /\
    meta !! pid_of tie_post = Some m /\
    tokens_of tie_post = t1 ++ max_tf_term m :: t2 /\
    forall x, x ∈ t1 -> (occurrences x (tokens_of tie_post) < max_tf m)%nat.
Proof.
  assert (NoDup (pid_of <$> [tie_post])) as Hnd by by_evaluation.
  assert (tie_post ∈ [tie_post]) as Hin by left.
  assert (has_tokens tie_post) as Htok by (vm_compute; discriminate).
  exact (max_tf_term_is_the_first_most_frequent no_files [tie_post] tie_post
           Hnd Hin Htok).
Defined.

Lemma postings_follow_the_corpus_witness :
  exists ps1 p ps2,
    corpus = ps1 ++ p :: ps2 /\ pid_of p = str "2" /\ str "cat" ∈ tokens_of p /\
    forall q, q ∈ ps1 -> str "cat" ∈ tokens_of q -> pid_of q ∈ [str "1"].
Proof.
  assert (corpus <> []) as Hne by discriminate.
  assert (post_ids cat_entry = [str "1"] ++ str "2" :: []) as Hids by reflexivity.
  exact (postings_follow_the_corpus no_files corpus _ (str "cat") (str "2") cat_entry
           [str "1"] [] Hne store_index store_cat Hids).
Defined.
End CaseStudies.
